(** * The metrics manager of versitygw: buffered ingestion and fan-out

    A shallow embedding of [metrics/metrics.go].  The methods of [*Manager]
    are functions over an explicit manager state that either return or
    panic; the goroutines ([Send] callers, the [addForwarder] loop and the
    caller of [Close]) are the threads of a labelled step function over a
    [World], whose trace records every call made on a publisher.  The
    definitions come first, then the lemmas, then one theorem for each
    claim of the specification. *)

From Stdlib Require Import ZArith List String Ascii Bool Lia.
Import ListNotations.

Local Open Scope string_scope.
Local Open Scope list_scope.
Local Open Scope Z_scope.

(** ** Data *)

(** Tag is added metadata for metrics. *)
Record Tag : Type := mkTag { Key : string; Value : string }.

Record datapoint : Type := mkDatapoint {
  module : string;
  key    : string;
  value  : Z;
  tags   : list Tag
}.

Record Config : Type := mkConfig {
  ServiceName      : string;
  StatsdServers    : string;
  DogStatsdServers : string
}.

(** Go's [error] values: an opaque error, or one wrapped by
    [fmt.Errorf("...: %w", err)]. *)
Inductive error : Type :=
| errorString (msg : string)
| wrapError (msg : string) (cause : error).

(** [context.Context], of which the manager only ever reads [Err()]. *)
Record Context : Type := mkContext { Err : option error }.

Definition Canceled : error := errorString "context canceled".
Definition Background : Context := {| Err := None |}.
Definition cancel (c : Context) : Context :=
  match Err c with
  | Some _ => c
  | None => {| Err := Some Canceled |}
  end.

(** The [publisher] interface has the methods [Add] and [Close]; the plugins
    behind it are handles here, and what the manager does to them is the
    sequence of calls it makes. *)
Record publisher : Type := mkPublisher {
  plugin   : string;
  endpoint : string;
  service  : string
}.

Inductive call : Type :=
| publisher_Add (p : publisher) (module key : string) (value : Z)
    (tags : list Tag)
| publisher_Close (p : publisher).

(** max size of data items to buffer before dropping new incoming data items *)
Definition dataItemCount : Z := 100000.

(** ** Panics and the result of a method *)

Inductive panic : Type :=
| nilDereference
| sendOnClosedChannel
| closeOfClosedChannel.

Inductive outcome (A : Type) : Type :=
| Returned (a : A)
| Panicked (p : panic).
Arguments Returned {A} a.
Arguments Panicked {A} p.

Definition bind {A B : Type} (x : outcome A) (f : A -> outcome B) : outcome B :=
  match x with
  | Returned a => f a
  | Panicked p => Panicked p
  end.

Notation "x <- e ;; k" := (bind e (fun x => k))
  (at level 61, e at next level, right associativity).

(** ** Buffered channels of datapoints *)

Record chan : Type := mkChan {
  buf    : list datapoint;
  cap    : Z;
  closed : bool
}.

(** [make(chan datapoint, n)] *)
Definition make_chan (n : Z) : chan := {| buf := []; cap := n; closed := false |}.

Definition full (c : chan) : bool := cap c <=? Z.of_nat (List.length (buf c)).

(** [select { case c <- d: default: }]: a send on a closed channel panics,
    a send on a full one is not ready and the default case runs. *)
Definition select_send (c : chan) (d : datapoint) : outcome chan :=
  if closed c then Panicked sendOnClosedChannel
  else if full c then Returned c
  else Returned {| buf := buf c ++ [d]; cap := cap c; closed := closed c |}.

(** [close(c)] *)
Definition close_chan (c : chan) : outcome chan :=
  if closed c then Panicked closeOfClosedChannel
  else Returned {| buf := buf c; cap := cap c; closed := true |}.

(** One iteration of [for data := range c]. *)
Inductive received : Type :=
| item (d : datapoint) (c : chan)
| drained
| blocked.

Definition range_next (c : chan) : received :=
  match buf c with
  | d :: rest => item d {| buf := rest; cap := cap c; closed := closed c |}
  | [] => if closed c then drained else blocked
  end.

(** ** The manager *)

(** Manager is a manager of metrics plugins.  [wg] is the counter of the
    [sync.WaitGroup]. *)
Record Manager : Type := mkManager {
  wg          : Z;
  ctx         : Context;
  config      : Config;
  publishers  : list publisher;
  addDataChan : chan
}.

Definition with_chan (m : Manager) (c : chan) : Manager :=
  {| wg := wg m; ctx := ctx m; config := config m;
     publishers := publishers m; addDataChan := c |}.

Definition with_ctx (m : Manager) (c : Context) : Manager :=
  {| wg := wg m; ctx := c; config := config m;
     publishers := publishers m; addDataChan := addDataChan m |}.

Definition with_wg (m : Manager) (n : Z) : Manager :=
  {| wg := n; ctx := ctx m; config := config m;
     publishers := publishers m; addDataChan := addDataChan m |}.

(** A method receiver [m *Manager]: [None] is the nil pointer. *)
Definition receiver : Type := option Manager.

Definition deref (m : receiver) : outcome Manager :=
  match m with
  | Some this => Returned this
  | None => Panicked nilDereference
  end.

(** ** The action names

    Modelled from the spec: the declarations of [ActionUndetected],
    [ActionPutObject] and the other action names are not in
    [metrics/metrics.go]; the sentinel and the six names of the table of
    section 4.1 are taken as the spec writes them. *)
Definition ActionUndetected : string := "undetected-action".
Definition ActionPutObject : string := "PutObject".
Definition ActionCompleteMultipartUpload : string := "CompleteMultipartUpload".
Definition ActionUploadPart : string := "UploadPart".
Definition ActionGetObject : string := "GetObject".
Definition ActionDeleteObject : string := "DeleteObject".
Definition ActionDeleteObjects : string := "DeleteObjects".

(** ** Ingestion *)

(** add adds value to key *)
Definition add (m : receiver) (module key : string) (value : Z)
    (tags : list Tag) : outcome Manager :=
  this <- deref m ;;
  match Err (ctx this) with
  | Some _ => Returned this
  | None =>
      let d := {| module := module; key := key; value := value; tags := tags |} in
      c <- select_send (addDataChan this) d ;;
      Returned (with_chan this c)
  end.

(** increment increments the key by one *)
Definition increment (m : receiver) (module key : string)
    (tags : list Tag) : outcome Manager :=
  add m module key 1 tags.

Definition Send (m : receiver) (err : option error) (action : string)
    (count : Z) : outcome Manager :=
  let action := if (action =? "")%string then ActionUndetected else action in
  this <- match err with
          | Some _ => increment m action "failed_count" []
          | None => increment m action "success_count" []
          end ;;
  if (action =? ActionPutObject)%string then
    this <- add (Some this) action "bytes_written" count [] ;;
    increment (Some this) action "object_created_count" []
  else if (action =? ActionCompleteMultipartUpload)%string then
    increment (Some this) action "object_created_count" []
  else if (action =? ActionUploadPart)%string then
    add (Some this) action "bytes_written" count []
  else if (action =? ActionGetObject)%string then
    add (Some this) action "bytes_read" count []
  else if (action =? ActionDeleteObject)%string then
    increment (Some this) action "object_removed_count" []
  else if (action =? ActionDeleteObjects)%string then
    add (Some this) action "object_removed_count" count []
  else Returned this.

(** ** Construction *)

(** [strings.Split(s, sep)] for a one-byte separator. *)
Fixpoint Split (s : string) (sep : ascii) : list string :=
  match s with
  | EmptyString => [EmptyString]
  | String c rest =>
      if Ascii.eqb c sep then EmptyString :: Split rest sep
      else match Split rest sep with
           | hd :: tl => String c hd :: tl
           | [] => [String c EmptyString]
           end
  end.

Section Construction.

(** What [NewManager] asks of its surroundings: the host name, and the
    constructors of the two plugins, each of which can fail. *)
Variable Hostname : string + error.
Variable newStatsd : string -> string -> publisher + error.
Variable newDogStatsd : string -> string -> publisher + error.

(** [for _, server := range servers { p, err := new(server, name); if err
    != nil { return nil, err }; pubs = append(pubs, p) }] *)
Fixpoint setup (new : string -> string -> publisher + error)
    (name : string) (servers : list string) (pubs : list publisher)
    : list publisher + error :=
  match servers with
  | [] => inl pubs
  | server :: more =>
      match new server name with
      | inr err => inr err
      | inl p => setup new name more (pubs ++ [p])
      end
  end.

(** NewManager initializes metrics plugins and returns a new metrics
    manager.  The result is the pair of a manager pointer and an error; the manager
    is returned with its forwarder started ([wg] is 1). *)
Definition NewManager (c : Context) (conf : Config)
    : receiver * option error :=
  if ((String.length (StatsdServers conf) =? 0)%nat
      && (String.length (DogStatsdServers conf) =? 0)%nat)%bool
  then (None, None)
  else
    let named :=
      if (ServiceName conf =? "")%string then
        match Hostname with
        | inr err => inr (wrapError "failed to get hostname" err)
        | inl hostname =>
            inl {| ServiceName := hostname;
                   StatsdServers := StatsdServers conf;
                   DogStatsdServers := DogStatsdServers conf |}
        end
      else inl conf in
    match named with
    | inr err => (None, Some err)
    | inl conf =>
        let statsd :=
          if (0 <? String.length (StatsdServers conf))%nat
          then setup newStatsd (ServiceName conf)
                 (Split (StatsdServers conf) ","%char) []
          else inl [] in
        match statsd with
        | inr err => (None, Some err)
        | inl pubs =>
            let dog :=
              if (0 <? String.length (DogStatsdServers conf))%nat
              then setup newDogStatsd (ServiceName conf)
                     (Split (DogStatsdServers conf) ","%char) pubs
              else inl pubs in
            match dog with
            | inr err => (None, Some err)
            | inl pubs =>
                (Some {| wg := 1; ctx := c; config := conf;
                         publishers := pubs;
                         addDataChan := make_chan dataItemCount |},
                 None)
            end
        end
    end.

End Construction.

(** ** The goroutines

    [addForwarder] and [Close] block, so each is a resumable body: given
    where the goroutine stands, one step of it.  [None] says that the
    goroutine cannot move (it waits, or it has finished); a step returns
    the manager, the next position and the calls made on publishers. *)

Inductive forwarder : Type :=
| fwdRange                                       (* at [range addChan] *)
| fwdAdd (data : datapoint) (rest : list publisher) (* in the inner loop *)
| fwdDone.                                       (* after [m.wg.Done()] *)

Inductive closer : Type :=
| closeEntry                                     (* [Close] is being called *)
| closeWait                                      (* at [m.wg.Wait()] *)
| closeLoop (rest : list publisher)              (* closing the plugins *)
| closeReturned.

Definition addForwarder (m : receiver) (pc : forwarder)
    : option (outcome (Manager * forwarder * list call)) :=
  match pc with
  | fwdRange =>
      match deref m with
      | Panicked p => Some (Panicked p)
      | Returned this =>
          match range_next (addDataChan this) with
          | item data c =>
              Some (Returned (with_chan this c, fwdAdd data (publishers this), []))
          | drained => Some (Returned (with_wg this (wg this - 1), fwdDone, []))
          | blocked => None
          end
      end
  | fwdAdd data (s :: rest) =>
      Some (this <- deref m ;;
            Returned (this, fwdAdd data rest,
                      [publisher_Add s (module data) (key data) (value data)
                         (tags data)]))
  | fwdAdd data [] => Some (this <- deref m ;; Returned (this, fwdRange, []))
  | fwdDone => None
  end.

(** Close closes metrics channels, waits for data to complete, closes all
    plugins *)
Definition Close (m : receiver) (pc : closer)
    : option (outcome (Manager * closer * list call)) :=
  match pc with
  | closeEntry =>
      Some (this <- deref m ;;
            c <- close_chan (addDataChan this) ;;
            Returned (with_chan this c, closeWait, []))
  | closeWait =>
      match deref m with
      | Panicked p => Some (Panicked p)
      | Returned this =>
          if wg this =? 0
          then Some (Returned (this, closeLoop (publishers this), []))
          else None
      end
  | closeLoop (p :: rest) =>
      Some (this <- deref m ;;
            Returned (this, closeLoop rest, [publisher_Close p]))
  | closeLoop [] => Some (this <- deref m ;; Returned (this, closeReturned, []))
  | closeReturned => None
  end.

(** The process: the manager, the forwarder started by [NewManager], the
    one caller of [Close], the [add] calls that have passed the context
    check and stand at their [select], the calls made on publishers so
    far, and the panic that ended the process, if any. *)
Record World : Type := mkWorld {
  mgr     : Manager;
  fwd     : forwarder;
  cls     : closer;
  sending : list datapoint;
  trace   : list call;
  crashed : option panic
}.

Definition boot (m : Manager) : World :=
  {| mgr := m; fwd := fwdRange; cls := closeEntry; sending := [];
     trace := []; crashed := None |}.

Inductive label : Type :=
| Lcancel                              (* the context is cancelled *)
| Ladd (module key : string) (value : Z) (tags : list Tag)
                                       (* a caller enters [add] *)
| Lselect (i : nat)                    (* the i-th waiting [add] selects *)
| Lforward                             (* the forwarder moves *)
| Lclose.                              (* the caller of [Close] moves *)

Fixpoint remove_nth {A : Type} (i : nat) (l : list A) : list A :=
  match l, i with
  | [], _ => []
  | _ :: rest, O => rest
  | x :: rest, S j => x :: remove_nth j rest
  end.

Definition step (l : label) (w : World) : option World :=
  match crashed w with
  | Some _ => None
  | None =>
      match l with
      | Lcancel =>
          match Err (ctx (mgr w)) with
          | Some _ => None
          | None =>
              Some {| mgr := with_ctx (mgr w) (cancel (ctx (mgr w)));
                      fwd := fwd w; cls := cls w; sending := sending w;
                      trace := trace w; crashed := None |}
          end
      | Ladd module key value tags =>
          match Err (ctx (mgr w)) with
          | Some _ => Some w
          | None =>
              let d := {| module := module; key := key; value := value;
                          tags := tags |} in
              Some {| mgr := mgr w; fwd := fwd w; cls := cls w;
                      sending := sending w ++ [d];
                      trace := trace w; crashed := None |}
          end
      | Lselect i =>
          match nth_error (sending w) i with
          | None => None
          | Some d =>
              match select_send (addDataChan (mgr w)) d with
              | Returned c =>
                  Some {| mgr := with_chan (mgr w) c; fwd := fwd w;
                          cls := cls w;
                          sending := remove_nth i (sending w);
                          trace := trace w; crashed := None |}
              | Panicked p =>
                  Some {| mgr := mgr w; fwd := fwd w; cls := cls w;
                          sending := remove_nth i (sending w);
                          trace := trace w; crashed := Some p |}
              end
          end
      | Lforward =>
          match addForwarder (Some (mgr w)) (fwd w) with
          | None => None
          | Some (Returned (m, pc, calls)) =>
              Some {| mgr := m; fwd := pc; cls := cls w;
                      sending := sending w;
                      trace := trace w ++ calls; crashed := None |}
          | Some (Panicked p) =>
              Some {| mgr := mgr w; fwd := fwd w; cls := cls w;
                      sending := sending w;
                      trace := trace w; crashed := Some p |}
          end
      | Lclose =>
          match Close (Some (mgr w)) (cls w) with
          | None => None
          | Some (Returned (m, pc, calls)) =>
              Some {| mgr := m; fwd := fwd w; cls := pc;
                      sending := sending w;
                      trace := trace w ++ calls; crashed := None |}
          | Some (Panicked p) =>
              Some {| mgr := mgr w; fwd := fwd w; cls := cls w;
                      sending := sending w;
                      trace := trace w; crashed := Some p |}
          end
      end
  end.

(** A schedule is the list of labels in the order the goroutines move. *)
Fixpoint run (ls : list label) (w : World) : option World :=
  match ls with
  | [] => Some w
  | l :: more =>
      match step l w with
      | Some w' => run more w'
      | None => None
      end
  end.


(** What the forwarder sends to the publishers for one datapoint, and for
    a buffer of them. *)
Definition fan_out (pubs : list publisher) (d : datapoint) : list call :=
  map (fun s => publisher_Add s (module d) (key d) (value d) (tags d)) pubs.

Definition deliveries (pubs : list publisher) (ds : list datapoint) : list call :=
  flat_map (fan_out pubs) ds.

Definition shutdowns (pubs : list publisher) : list call :=
  map publisher_Close pubs.

(** ** The Mapper of the specification

    Section 4.1 of the spec words [Send] as a pure function from an
    outcome to a sequence of datapoints, each of which is then enqueued on
    its own.  [Mapper] follows those words (the sentinel, the status
    increment, the row of the table); [add_all] enqueues a sequence with
    the [add] of the source. *)

Definition metric (module key : string) (value : Z) : datapoint :=
  {| module := module; key := key; value := value; tags := [] |}.

Definition status_key (err : option error) : string :=
  match err with
  | Some _ => "failed_count"
  | None => "success_count"
  end.

Definition module_of (action : string) : string :=
  if (action =? "")%string then "undetected-action" else action.

Definition table_row (action : string) (count : Z) : list datapoint :=
  if (action =? "PutObject")%string then
    [metric action "bytes_written" count; metric action "object_created_count" 1]
  else if (action =? "CompleteMultipartUpload")%string then
    [metric action "object_created_count" 1]
  else if (action =? "UploadPart")%string then
    [metric action "bytes_written" count]
  else if (action =? "GetObject")%string then
    [metric action "bytes_read" count]
  else if (action =? "DeleteObject")%string then
    [metric action "object_removed_count" 1]
  else if (action =? "DeleteObjects")%string then
    [metric action "object_removed_count" count]
  else [].

Definition Mapper (err : option error) (action : string) (count : Z)
    : list datapoint :=
  metric (module_of action) (status_key err) 1
  :: table_row (module_of action) count.

Fixpoint add_all (this : Manager) (ds : list datapoint) : outcome Manager :=
  match ds with
  | [] => Returned this
  | d :: more =>
      this <- add (Some this) (module d) (key d) (value d) (tags d) ;;
      add_all this more
  end.

Definition table_actions : list string :=
  ["PutObject"; "CompleteMultipartUpload"; "UploadPart"; "GetObject";
   "DeleteObject"; "DeleteObjects"].

(** A manager that is running with room for [n] more datapoints. *)
Definition running (this : Manager) : Prop :=
  Err (ctx this) = None /\ closed (addDataChan this) = false.

Definition room (this : Manager) (n : nat) : Prop :=
  Z.of_nat (List.length (buf (addDataChan this))) + Z.of_nat n
  <= cap (addDataChan this).

Definition enqueued (this : Manager) (ds : list datapoint) : Manager :=
  with_chan this {| buf := buf (addDataChan this) ++ ds;
                    cap := cap (addDataChan this);
                    closed := closed (addDataChan this) |}.

(** A manager as [NewManager] builds it, for the examples. *)
Definition example_statsd : publisher :=
  {| plugin := "statsd"; endpoint := "127.0.0.1:8125"; service := "gw" |}.

Definition example_dogstatsd : publisher :=
  {| plugin := "dogstatsd"; endpoint := "127.0.0.1:8126"; service := "gw" |}.

Definition example_publishers : list publisher :=
  [example_statsd; example_dogstatsd].

Definition example_manager : Manager :=
  {| wg := 1; ctx := Background;
     config := {| ServiceName := "gw"; StatsdServers := "127.0.0.1:8125";
                  DogStatsdServers := "127.0.0.1:8126" |};
     publishers := example_publishers;
     addDataChan := make_chan dataItemCount |}.

(** ** What is left to do, and what holds while shutting down *)

(** The calls the forwarder still has to make for what it holds and for
    what is buffered. *)
Definition pending (w : World) : list call :=
  match fwd w with
  | fwdRange =>
      deliveries (publishers (mgr w)) (buf (addDataChan (mgr w)))
  | fwdAdd data rest =>
      fan_out rest data
      ++ deliveries (publishers (mgr w)) (buf (addDataChan (mgr w)))
  | fwdDone => []
  end.


Definition is_Add (c : call) : bool :=
  match c with
  | publisher_Add _ _ _ _ _ => true
  | publisher_Close _ => false
  end.

Definition adds (t : list call) : list call := filter is_Add t.








Definition record (p : publisher) (d : datapoint) : call :=
  publisher_Add p (module d) (key d) (value d) (tags d).

(** [Close] does not move. *)
Definition no_Close (l : label) : bool :=
  match l with
  | Lclose => false
  | _ => true
  end.

(** A running process whose context has been cancelled while nobody was
    inside [add], and on which [Close] has not been called. *)
Definition cancelled_running (w : World) : Prop :=
  crashed w = None /\ Err (ctx (mgr w)) <> None /\ sending w = []
  /\ closed (addDataChan (mgr w)) = false /\ cls w = closeEntry
  /\ fwd w <> fwdDone.

(** No datapoint and no call carries a tag. *)
Definition tagless (d : datapoint) : Prop := tags d = [].

Definition call_tagless (c : call) : Prop :=
  match c with
  | publisher_Add _ _ _ _ tags => tags = []
  | publisher_Close _ => True
  end.

Record untagged (w : World) : Prop := {
  ut_buf : Forall tagless (buf (addDataChan (mgr w)));
  ut_sending : Forall tagless (sending w);
  ut_fwd : match fwd w with fwdAdd data _ => tagless data | _ => True end;
  ut_trace : Forall call_tagless (trace w)
}.

(** The [add] calls that a [Send] makes. *)
Definition by_Send (l : label) : Prop :=
  match l with
  | Ladd module key value tags =>
      exists err action count,
        In (mkDatapoint module key value tags) (Mapper err action count)
  | _ => True
  end.

(** ** Views of [NewManager] *)

(** The two loops of [NewManager] over the configured endpoints, for a
    given service name. *)
Definition plugins (newStatsd newDogStatsd : string -> string -> publisher + error)
    (name : string) (conf : Config) : list publisher + error :=
  match (if (StatsdServers conf =? "")%string then inl []
         else setup newStatsd name (Split (StatsdServers conf) ","%char) [])
  with
  | inr err => inr err
  | inl pubs =>
      if (DogStatsdServers conf =? "")%string then inl pubs
      else setup newDogStatsd name (Split (DogStatsdServers conf) ","%char) pubs
  end.

(** The service name the plugins are built with. *)
Definition named (Hostname : string + error) (conf : Config) (name : string)
    : Prop :=
  (ServiceName conf <> "" /\ name = ServiceName conf)
  \/ (ServiceName conf = "" /\ Hostname = inl name).

(** At least one backend endpoint is configured. *)
Definition endpoints (conf : Config) : Prop :=
  StatsdServers conf <> "" \/ DogStatsdServers conf <> "".

(** ** Managers, configurations and schedules of the examples *)

(** A manager after cancellation and after [Close] has closed the channel. *)
Definition cancelled_closed_manager : Manager :=
  {| wg := 0; ctx := cancel Background; config := config example_manager;
     publishers := example_publishers;
     addDataChan := {| buf := []; cap := dataItemCount; closed := true |} |}.

(** A manager whose buffer is full and whose channel [Close] has closed,
    with the context still live. *)
Definition full_closed_manager : Manager :=
  with_chan example_manager
    {| buf := repeat (metric "GetObject" "bytes_read" 1) (Z.to_nat dataItemCount);
       cap := dataItemCount; closed := true |}.

(** The buffer is full, the channel open and the context live. *)
Definition full_manager : Manager :=
  with_chan example_manager
    {| buf := repeat (metric "GetObject" "bytes_read" 1) (Z.to_nat dataItemCount);
       cap := dataItemCount; closed := false |}.

(** No backend is configured. *)
Definition unconfigured : Config :=
  {| ServiceName := ""; StatsdServers := ""; DogStatsdServers := "" |}.

Definition no_plugin (server name : string) : publisher + error :=
  inr (errorString "no such plugin").

(** Statsd is configured, the service name is set, the plugin fails. *)
Definition statsd_only : Config :=
  {| ServiceName := "gw"; StatsdServers := "127.0.0.1:8125";
     DogStatsdServers := "" |}.

(** Both kinds of endpoints are configured and the service name is unset. *)
Definition both_unnamed : Config :=
  {| ServiceName := ""; StatsdServers := "a:8125,b:8125";
     DogStatsdServers := "c:8126" |}.

Definition statsd_plugin (server name : string) : publisher + error :=
  inl {| plugin := "statsd"; endpoint := server; service := name |}.

Definition dogstatsd_plugin (server name : string) : publisher + error :=
  inl {| plugin := "dogstatsd"; endpoint := server; service := name |}.

(** Two datapoints are buffered when [Close] is called. *)
Definition two_buffered : World :=
  boot (enqueued example_manager
          [metric "PutObject" "success_count" 1;
           metric "PutObject" "bytes_written" 100]).

(** [Close] closes the channel, the forwarder delivers both datapoints and
    exits, [Close] closes both publishers and returns. *)
Definition close_schedule : list label :=
  Lclose :: repeat Lforward 9 ++ repeat Lclose 4.

(** [Close] stands at [m.wg.Wait()] with the channel closed, while an
    [add] that has passed the context check stands at its [select]. *)
Definition closed_with_sender : World :=
  {| mgr := with_chan example_manager
              {| buf := [metric "PutObject" "success_count" 1];
                 cap := dataItemCount; closed := true |};
     fwd := fwdRange; cls := closeWait;
     sending := [metric "GetObject" "bytes_read" 42];
     trace := []; crashed := None |}.

Definition late_schedule : list label :=
  [Lforward; Lforward; Ladd "GetObject" "success_count" 1 []; Lselect 0].

(** A [Send] of a successful PutObject, one [add] after the other, with
    the forwarder delivering the first datapoint. *)
Definition report_schedule : list label :=
  [Ladd "PutObject" "success_count" 1 []; Lselect 0;
   Ladd "PutObject" "bytes_written" 100 []; Lselect 0;
   Lforward; Lforward;
   Ladd "PutObject" "object_created_count" 1 []; Lselect 0].

(** ** Views for the further properties *)


(** One call of [Send] by a request handler, and a handler making one
    call after the other. *)
Record request : Type := mkRequest {
  req_err    : option error;
  req_action : string;
  req_count  : Z
}.

Fixpoint Send_each (this : Manager) (rs : list request) : outcome Manager :=
  match rs with
  | [] => Returned this
  | r :: more =>
      this <- Send (Some this) (req_err r) (req_action r) (req_count r) ;;
      Send_each this more
  end.

Definition reported (rs : list request) : list datapoint :=
  flat_map (fun r => Mapper (req_err r) (req_action r) (req_count r)) rs.

(** The datapoint that a step puts into the buffer: the one of a waiting
    [add] whose [select] takes the send case. *)
Definition accepts (l : label) (w : World) : list datapoint :=
  match crashed w, l with
  | None, Lselect i =>
      match nth_error (sending w) i with
      | Some d =>
          if (closed (addDataChan (mgr w)) || full (addDataChan (mgr w)))%bool
          then [] else [d]
      | None => []
      end
  | _, _ => []
  end.

Fixpoint accepted (ls : list label) (w : World) : list datapoint :=
  match ls with
  | [] => []
  | l :: more =>
      match step l w with
      | Some w' => accepts l w ++ accepted more w'
      | None => []
      end
  end.

(** What holds of a process started by [NewManager] whatever its
    goroutines do: the WaitGroup counts the forwarder, the forwarder has
    exited only with the channel closed, the channel is closed once [Close]
    has passed its first statement, and the calls made so far are [Add]
    calls followed by the [Close] calls of the plugins already closed. *)
Record orderly (pubs : list publisher) (w : World) : Prop := {
  od_publishers : publishers (mgr w) = pubs;
  od_wg : wg (mgr w) = match fwd w with fwdDone => 0 | _ => 1 end;
  od_done : fwd w = fwdDone -> closed (addDataChan (mgr w)) = true;
  od_closed : closed (addDataChan (mgr w)) = true <-> cls w <> closeEntry;
  od_trace : exists done : list publisher,
      trace w = adds (trace w) ++ shutdowns done
      /\ match cls w with
         | closeEntry | closeWait => done = []
         | closeLoop rest => pubs = done ++ rest /\ fwd w = fwdDone
         | closeReturned => pubs = done /\ fwd w = fwdDone
         end
}.

(** The entries of a configured server list: none for the empty string,
    else what [strings.Split] gives. *)
Definition entries (servers : string) : list string :=
  if (servers =? "")%string then [] else Split servers ","%char.

(** The number of separators in a string. *)
Fixpoint count_sep (sep : ascii) (s : string) : nat :=
  match s with
  | EmptyString => 0
  | String c rest =>
      if Ascii.eqb c sep then S (count_sep sep rest) else count_sep sep rest
  end.

(** ** The helpers of the integration tests

    [isEqual] and [isSame] index the second slice with the position in
    the first; [None] is the run-time panic of an index out of range. *)

Fixpoint range_compare (a b : list Byte.byte) (i : nat) : option bool :=
  match a with
  | [] => Some true
  | d :: rest =>
      match nth_error b i with
      | None => None
      | Some x => if Byte.eqb d x then range_compare rest b (S i) else Some false
      end
  end.

Definition isEqual (a b : list Byte.byte) : option bool :=
  if negb (List.length a =? List.length b)%nat then Some false
  else range_compare a b 0.

Definition isSame (a b : list Byte.byte) : option bool :=
  if negb (List.length a =? List.length b)%nat then Some false
  else range_compare a b 0.

(** Of the SDK's [types.Part], [containsPart] reads [PartNumber] only. *)
Record Part : Type := mkPart { PartNumber : Z }.

Fixpoint containsPart (part : Z) (list : list Part) : bool :=
  match list with
  | [] => false
  | it :: more =>
      if PartNumber it =? part then true else containsPart part more
  end.

(** ** Managers, requests and schedules of the further examples *)


(** The manager with two buffered datapoints on which [Close] is called. *)
Definition two_buffered_manager : Manager :=
  enqueued example_manager
    [metric "PutObject" "success_count" 1;
     metric "PutObject" "bytes_written" 100].

(** A successful PutObject of 100 bytes and a failed GetObject of 42. *)
Definition two_requests : list request :=
  [ {| req_err := None; req_action := "PutObject"; req_count := 100 |};
    {| req_err := Some (errorString "NoSuchKey"); req_action := "GetObject";
       req_count := 42 |} ].

(** The manager built for [both_unnamed] on the host "host". *)
Definition both_unnamed_manager : Manager :=
  {| wg := 1; ctx := Background;
     config := {| ServiceName := "host"; StatsdServers := "a:8125,b:8125";
                  DogStatsdServers := "c:8126" |};
     publishers :=
       [ {| plugin := "statsd"; endpoint := "a:8125"; service := "host" |};
         {| plugin := "statsd"; endpoint := "b:8125"; service := "host" |};
         {| plugin := "dogstatsd"; endpoint := "c:8126"; service := "host" |} ];
     addDataChan := make_chan dataItemCount |}.

(** The context is cancelled, a caller enters [add] and returns at once,
    the forwarder goes on delivering. *)
Definition cancel_schedule : list label :=
  [Lcancel; Ladd "PutObject" "success_count" 1 []; Lforward; Lforward].

Definition three_bytes : list Byte.byte := [Byte.x01; Byte.x02; Byte.xff].

Definition three_parts : list Part :=
  [ {| PartNumber := 1 |}; {| PartNumber := 2 |}; {| PartNumber := 3 |} ].

(** * Lemmas *)

(** ** Ingestion, one call at a time *)

Lemma bind_Returned {A : Type} (x : outcome A) :
  (a <- x ;; Returned a) = x.
Proof. destruct x; reflexivity. Qed.

Lemma add_Some (this : Manager) (module key : string) (value : Z)
    (tags : list Tag) :
  add (Some this) module key value tags =
  match Err (ctx this) with
  | Some _ => Returned this
  | None =>
      if closed (addDataChan this) then Panicked sendOnClosedChannel
      else if full (addDataChan this) then Returned this
      else Returned (enqueued this [mkDatapoint module key value tags])
  end.
Proof.
  unfold add, select_send, enqueued, with_chan. simpl.
  destruct (Err (ctx this)); [reflexivity|].
  destruct (closed (addDataChan this)); [reflexivity|].
  destruct (full (addDataChan this)); simpl; [|reflexivity].
  destruct this as [w c cf ps [b k cl]]; reflexivity.
Qed.

Lemma Send_Mapper (m : receiver) (err : option error) (action : string)
    (count : Z) :
  Send m err action count =
  (this <- deref m ;; add_all this (Mapper err action count)).
Proof.
  unfold Send. cbv zeta.
  change (if (action =? "")%string then ActionUndetected else action)
    with (module_of action).
  unfold Mapper, table_row, increment, metric, status_key,
    ActionPutObject, ActionCompleteMultipartUpload, ActionUploadPart,
    ActionGetObject, ActionDeleteObject, ActionDeleteObjects.
  destruct m as [this|]; [|destruct err; reflexivity].
  cbn [deref bind add_all module key value tags].
  destruct err as [e|];
    (match goal with
     | |- context [add (Some this) ?mo ?k 1 []] =>
         destruct (add (Some this) mo k 1 []) as [this1|p]
     end; [|reflexivity]);
    cbn [bind];
    repeat match goal with
    | |- context [String.eqb (module_of action) ?s] =>
        destruct (String.eqb (module_of action) s)
    end; cbn [add_all module key value tags];
    repeat match goal with
    | |- context [bind (add ?r ?mo ?k ?v ?t) _] =>
        destruct (add r mo k v t); cbn [bind]
    end; reflexivity.
Qed.

Lemma add_all_app (this : Manager) (ds es : list datapoint) :
  add_all this (ds ++ es) = (this' <- add_all this ds ;; add_all this' es).
Proof.
  revert this. induction ds as [|d ds IH]; intros this; [reflexivity|].
  cbn [app add_all].
  destruct (add (Some this) (module d) (key d) (value d) (tags d));
    cbn [bind]; [apply IH | reflexivity].
Qed.

Lemma enqueued_app (this : Manager) (ds es : list datapoint) :
  enqueued (enqueued this ds) es = enqueued this (ds ++ es).
Proof. unfold enqueued, with_chan. simpl. rewrite <- app_assoc. reflexivity. Qed.

Lemma enqueued_nil (this : Manager) : enqueued this [] = this.
Proof.
  destruct this as [w c cf ps [b k cl]]. unfold enqueued, with_chan. simpl.
  rewrite app_nil_r. reflexivity.
Qed.

Lemma add_all_room (this : Manager) (ds : list datapoint) :
  running this -> room this (List.length ds) ->
  add_all this ds = Returned (enqueued this ds).
Proof.
  revert this. induction ds as [|d ds IH]; intros this [Hctx Hopen] Hroom.
  - simpl. rewrite enqueued_nil. reflexivity.
  - cbn [add_all]. rewrite add_Some, Hctx, Hopen.
    unfold room in Hroom. cbn [List.length] in Hroom.
    unfold full.
    destruct (Z.leb_spec (cap (addDataChan this))
                (Z.of_nat (List.length (buf (addDataChan this))))); [lia|].
    cbn [bind]. destruct d as [mo k v t]. cbn [module key value tags].
    rewrite IH.
    + rewrite enqueued_app. reflexivity.
    + split; assumption.
    + unfold room, enqueued. simpl. rewrite length_app. simpl. lia.
Qed.

Lemma add_all_cancelled (this : Manager) (ds : list datapoint) :
  Err (ctx this) <> None -> add_all this ds = Returned this.
Proof.
  intros Hctx. induction ds as [|d ds IH]; [reflexivity|].
  cbn [add_all]. rewrite add_Some.
  destruct (Err (ctx this)); [|congruence]. exact IH.
Qed.

Lemma add_all_open (this : Manager) (ds : list datapoint) :
  closed (addDataChan this) = false ->
  exists this', add_all this ds = Returned this'
                /\ closed (addDataChan this') = false.
Proof.
  revert this. induction ds as [|d ds IH]; intros this Hopen.
  - exists this. split; [reflexivity | assumption].
  - cbn [add_all]. rewrite add_Some, Hopen.
    destruct (Err (ctx this)); [cbn [bind]; apply IH; assumption|].
    destruct (full (addDataChan this)); cbn [bind]; apply IH;
      [assumption | exact Hopen].
Qed.

(** ** [add] as two steps of the process *)

Lemma nth_error_snoc {A : Type} (l : list A) (x : A) :
  nth_error (l ++ [x]) (List.length l) = Some x.
Proof. induction l as [|y l IH]; [reflexivity | exact IH]. Qed.

Lemma remove_nth_snoc {A : Type} (l : list A) (x : A) :
  remove_nth (List.length l) (l ++ [x]) = l.
Proof.
  induction l as [|y l IH]; [reflexivity|]. cbn. f_equal. exact IH.
Qed.

(** A caller that enters [add] and then selects, with nothing in between,
    does to the process what the method does to the manager. *)
Lemma add_enter_select (w : World) (module key : string) (value : Z)
    (tags : list Tag) :
  crashed w = None ->
  run (Ladd module key value tags
       :: match Err (ctx (mgr w)) with
          | Some _ => []
          | None => [Lselect (List.length (sending w))]
          end) w
  = Some match add (Some (mgr w)) module key value tags with
         | Returned this =>
             {| mgr := this; fwd := fwd w; cls := cls w;
                sending := sending w; trace := trace w; crashed := None |}
         | Panicked p =>
             {| mgr := mgr w; fwd := fwd w; cls := cls w;
                sending := sending w; trace := trace w; crashed := Some p |}
         end.
Proof.
  intros Hc. destruct w as [m f cl s t cr]. cbn in Hc. subst cr.
  unfold add. cbn [deref bind mgr sending fwd cls trace].
  destruct (Err (ctx m)) eqn:Hctx.
  - cbn [run]. unfold step. cbn. rewrite Hctx. reflexivity.
  - cbn [run]. unfold step at 1. cbn. rewrite Hctx.
    unfold step. cbn. rewrite nth_error_snoc, remove_nth_snoc.
    destruct (select_send (addDataChan m)
                {| module := module; key := key; value := value;
                   tags := tags |}); reflexivity.
Qed.

(** ** Construction *)

Lemma length_eqb_0 (s : string) :
  (String.length s =? 0)%nat = (s =? "")%string.
Proof. destruct s; reflexivity. Qed.

Lemma length_ltb_0 (s : string) :
  (0 <? String.length s)%nat = negb (s =? "")%string.
Proof. destruct s; reflexivity. Qed.

Section ConstructionFacts.

Variable Hostname : string + error.
Variable newStatsd : string -> string -> publisher + error.
Variable newDogStatsd : string -> string -> publisher + error.

Lemma NewManager_unconfigured (c : Context) (conf : Config) :
StatsdServers conf = "" -> DogStatsdServers conf = "" ->
NewManager Hostname newStatsd newDogStatsd c conf = (None, None).
Proof.
intros Hs Hd. unfold NewManager. rewrite Hs, Hd. reflexivity.
Qed.

Lemma endpoints_dec (conf : Config) :
  ((StatsdServers conf =? "")%string
   && (DogStatsdServers conf =? "")%string)%bool = false
  <-> endpoints conf.
Proof.
  unfold endpoints.
  destruct (String.eqb_spec (StatsdServers conf) "");
    destruct (String.eqb_spec (DogStatsdServers conf) ""); simpl;
    intuition congruence.
Qed.

Lemma NewManager_hostname_error (c : Context) (conf : Config) (e : error) :
  endpoints conf -> ServiceName conf = "" -> Hostname = inr e ->
  NewManager Hostname newStatsd newDogStatsd c conf
  = (None, Some (wrapError "failed to get hostname" e)).
Proof.
  intros Hend Hname Hhost. apply endpoints_dec in Hend.
  unfold NewManager. rewrite !length_eqb_0, Hend, Hname, Hhost.
  reflexivity.
Qed.

Lemma NewManager_named (c : Context) (conf : Config) (name : string) :
  endpoints conf -> named Hostname conf name ->
  NewManager Hostname newStatsd newDogStatsd c conf
  = match plugins newStatsd newDogStatsd name conf with
    | inr err => (None, Some err)
    | inl pubs =>
        (Some {| wg := 1; ctx := c;
                 config := {| ServiceName := name;
                              StatsdServers := StatsdServers conf;
                              DogStatsdServers := DogStatsdServers conf |};
                 publishers := pubs;
                 addDataChan := make_chan dataItemCount |}, None)
    end.
Proof.
  intros Hend Hnamed. apply endpoints_dec in Hend.
  unfold NewManager, plugins. rewrite !length_eqb_0, Hend.
  destruct Hnamed as [[Hset ->] | [Hunset Hhost]].
  - apply String.eqb_neq in Hset. rewrite Hset.
    rewrite !length_ltb_0.
    destruct conf as [n s d]. cbn [ServiceName StatsdServers DogStatsdServers] in *.
    destruct (s =? "")%string; cbn [negb];
      [|destruct (setup newStatsd n (Split s ",") []); [|reflexivity]];
      destruct (d =? "")%string; cbn [negb]; try reflexivity;
      match goal with
      | |- context [setup newDogStatsd ?a ?b ?c] =>
          destruct (setup newDogStatsd a b c); reflexivity
      end.
  - rewrite Hunset, Hhost. cbn [String.eqb].
    cbn [ServiceName StatsdServers DogStatsdServers].
    rewrite !length_ltb_0.
    destruct (StatsdServers conf =? "")%string; cbn [negb];
      [|destruct (setup newStatsd name (Split (StatsdServers conf) ",") []);
        [|reflexivity]];
      destruct (DogStatsdServers conf =? "")%string; cbn [negb];
      try reflexivity;
      match goal with
      | |- context [setup newDogStatsd ?a ?b ?c] =>
          destruct (setup newDogStatsd a b c); reflexivity
      end.
Qed.

Lemma named_or_unresolved (conf : Config) :
  (exists name, named Hostname conf name)
  \/ (ServiceName conf = "" /\ exists e, Hostname = inr e).
Proof.
  unfold named.
  destruct (String.eqb_spec (ServiceName conf) "") as [Hn|Hn].
  - destruct Hostname as [h|e]; [left; exists h; auto | right; eauto].
  - left. exists (ServiceName conf). auto.
Qed.

Lemma named_unique (conf : Config) (a b : string) :
  named Hostname conf a -> named Hostname conf b -> a = b.
Proof.
  unfold named. intros [[Ha ->]|[Ha Ha']] [[Hb ->]|[Hb Hb']];
    congruence.
Qed.

End ConstructionFacts.

(** ** The two loops of [NewManager] *)

Lemma setup_inl (new : string -> string -> publisher + error)
    (name : string) (servers : list string) :
  forall pubs pubs' : list publisher,
  setup new name servers pubs = inl pubs' <->
  exists ps, Forall2 (fun s p => new s name = inl p) servers ps
             /\ pubs' = pubs ++ ps.
Proof.
  induction servers as [|s servers IH]; intros pubs pubs'; cbn.
  - split.
    + intros H. injection H as <-. exists []. split; [constructor|].
      rewrite app_nil_r. reflexivity.
    + intros (ps & Hall & ->). inversion Hall. rewrite app_nil_r. reflexivity.
  - destruct (new s name) as [p|e] eqn:Hnew.
    + rewrite IH. split.
      * intros (ps & Hall & ->). exists (p :: ps).
        split; [constructor; assumption|]. rewrite <- app_assoc. reflexivity.
      * intros (ps & Hall & ->). inversion Hall as [|? q ? qs Hq Hqs]; subst.
        assert (q = p) by congruence. subst q.
        exists qs. split; [assumption|]. rewrite <- app_assoc. reflexivity.
    + split; [discriminate|].
      intros (ps & Hall & _). inversion Hall; congruence.
Qed.

Lemma setup_inr (new : string -> string -> publisher + error)
    (name : string) (servers : list string) (e : error) :
  forall pubs : list publisher,
  setup new name servers pubs = inr e <->
  exists pre s post,
    servers = pre ++ s :: post
    /\ Forall (fun x => exists p, new x name = inl p) pre
    /\ new s name = inr e.
Proof.
  induction servers as [|s servers IH]; intros pubs; cbn.
  - split; [discriminate|].
    intros (pre & x & post & H & _). destruct pre; discriminate H.
  - destruct (new s name) as [p|e'] eqn:Hnew.
    + rewrite IH. split.
      * intros (pre & x & post & -> & Hpre & Hx).
        exists (s :: pre), x, post. split; [reflexivity|].
        split; [constructor; eauto | assumption].
      * intros (pre & x & post & Heq & Hpre & Hx).
        destruct pre as [|y pre]; cbn in Heq; injection Heq as <- ->.
        -- congruence.
        -- inversion Hpre; subst. exists pre, x, post. auto.
    + split.
      * intros H. injection H as <-. exists [], s, servers. auto.
      * intros (pre & x & post & Heq & Hpre & Hx).
        destruct pre as [|y pre]; cbn in Heq; injection Heq as <- ->.
        -- congruence.
        -- inversion Hpre as [|? ? [p Hp] ?]; subst. congruence.
Qed.

Lemma plugins_entries
    (newStatsd newDogStatsd : string -> string -> publisher + error)
    (name : string) (conf : Config) :
  plugins newStatsd newDogStatsd name conf
  = match setup newStatsd name (entries (StatsdServers conf)) [] with
    | inr err => inr err
    | inl pubs => setup newDogStatsd name (entries (DogStatsdServers conf)) pubs
    end.
Proof.
  unfold plugins, entries.
  destruct (StatsdServers conf =? "")%string;
    destruct (DogStatsdServers conf =? "")%string; cbn; try reflexivity.
  all: match goal with
       | |- context [match setup ?f ?a ?b ?c with _ => _ end] =>
           destruct (setup f a b c); reflexivity
       end.
Qed.

(** [setup] fails exactly when the constructor fails on one of the
    entries, and then with the error of such an entry. *)
Lemma setup_fails_iff (new : string -> string -> publisher + error)
    (name : string) (servers : list string) (pubs : list publisher) :
  (exists e, setup new name servers pubs = inr e)
  <-> exists s e, In s servers /\ new s name = inr e.
Proof.
  revert pubs. induction servers as [|x servers IH]; intros pubs; cbn.
  - split; [intros [e H]; discriminate H | intros (s & e & [] & _)].
  - destruct (new x name) as [p|e'] eqn:Hnew.
    + rewrite IH. split.
      * intros (s & e & Hin & Hs). exists s, e. auto.
      * intros (s & e & [<- | Hin] & Hs); [congruence|]. exists s, e. auto.
    + split; [intros _; exists x, e'; auto | intros _; exists e'; reflexivity].
Qed.

(** An error of the two loops is the error that a constructor returned on
    one of the configured entries. *)
Lemma plugins_inr
    (newStatsd newDogStatsd : string -> string -> publisher + error)
    (name : string) (conf : Config) (e : error) :
  plugins newStatsd newDogStatsd name conf = inr e ->
  exists server,
    (In server (entries (StatsdServers conf))
     /\ newStatsd server name = inr e)
    \/ (In server (entries (DogStatsdServers conf))
        /\ newDogStatsd server name = inr e).
Proof.
  rewrite plugins_entries. intros H.
  destruct (setup newStatsd name (entries (StatsdServers conf)) [])
    as [ps|e'] eqn:Hs.
  - apply setup_inr in H. destruct H as (pre & s & post & Heq & _ & Hbad).
    exists s. right. split; [|assumption].
    rewrite Heq. apply in_or_app. right. left. reflexivity.
  - injection H as ->.
    apply setup_inr in Hs. destruct Hs as (pre & s & post & Heq & _ & Hbad).
    exists s. left. split; [|assumption].
    rewrite Heq. apply in_or_app. right. left. reflexivity.
Qed.

(** The two loops fail exactly when a constructor fails on one of the
    configured entries. *)
Lemma plugins_fails_iff
    (newStatsd newDogStatsd : string -> string -> publisher + error)
    (name : string) (conf : Config) :
  (exists e, plugins newStatsd newDogStatsd name conf = inr e)
  <-> exists server e,
        (In server (entries (StatsdServers conf))
         /\ newStatsd server name = inr e)
        \/ (In server (entries (DogStatsdServers conf))
            /\ newDogStatsd server name = inr e).
Proof.
  split.
  - intros [e H]. destruct (plugins_inr _ _ _ _ _ H) as [server Hs].
    exists server, e. exact Hs.
  - intros (server & e & H). rewrite plugins_entries.
    destruct (setup newStatsd name (entries (StatsdServers conf)) [])
      as [ps|e'] eqn:Hs; [|exists e'; reflexivity].
    destruct H as [[Hin Hbad] | [Hin Hbad]].
    + assert (Hf : exists e0,
                setup newStatsd name (entries (StatsdServers conf)) [] = inr e0)
        by (apply setup_fails_iff; exists server, e; auto).
      destruct Hf as [e0 Hf]. congruence.
    + apply setup_fails_iff. exists server, e. auto.
Qed.

(** ** The process while it shuts down *)

Lemma deliveries_cons (pubs : list publisher) (d : datapoint)
    (ds : list datapoint) :
  deliveries pubs (d :: ds) = fan_out pubs d ++ deliveries pubs ds.
Proof. reflexivity. Qed.












Lemma adds_app (s t : list call) : adds (s ++ t) = adds s ++ adds t.
Proof. apply filter_app. Qed.








(** ** After the channel is closed *)

(** The first step of [Close] closes the channel, unless it panics because
    the channel is closed already. *)
Lemma Close_closes_channel (w w' : World) :
  cls w = closeEntry -> step Lclose w = Some w' ->
  closed (addDataChan (mgr w')) = true.
Proof.
  intros Hcls Hstep.
  destruct w as [[g c cf ps [b k cd]] f cl s t cr]. cbn in Hcls. subst cl.
  unfold step in Hstep. cbn in Hstep.
  destruct cr; [discriminate Hstep|].
  unfold close_chan in Hstep. cbn in Hstep.
  destruct cd; cbn in Hstep; injection Hstep as <-; reflexivity.
Qed.

Lemma closed_step (l : label) (w w' : World) :
  closed (addDataChan (mgr w)) = true -> step l w = Some w' ->
  closed (addDataChan (mgr w')) = true
  /\ adds (trace w') ++ pending w' = adds (trace w) ++ pending w
  /\ (exists popped,
        buf (addDataChan (mgr w)) = popped ++ buf (addDataChan (mgr w'))).
Proof.
  intros Hcl Hstep.
  destruct w as [[g c cf ps [b k cd]] f cl s t cr].
  cbn in Hcl. subst cd. unfold step in Hstep. cbn in Hstep.
  destruct cr; [discriminate Hstep|].
  destruct l; cbn in Hstep.
  - destruct c as [[e|]]; cbn in Hstep; [discriminate Hstep|].
    injection Hstep as <-. cbn. split; [reflexivity|].
    split; [reflexivity | exists []; reflexivity].
  - destruct c as [[e|]]; cbn in Hstep; injection Hstep as <-; cbn;
      (split; [reflexivity|]); (split; [reflexivity | exists []; reflexivity]).
  - destruct (nth_error s i); [|discriminate Hstep].
    cbn in Hstep. injection Hstep as <-. cbn. split; [reflexivity|].
    split; [reflexivity | exists []; reflexivity].
  - destruct f as [|data rest|]; cbn in Hstep.
    + unfold range_next in Hstep. cbn in Hstep.
      destruct b as [|d b]; injection Hstep as <-; cbn; unfold pending; cbn;
        rewrite ?app_nil_r;
        (split; [reflexivity|]); (split; [reflexivity|]).
      * exists []. reflexivity.
      * exists [d]. reflexivity.
    + destruct rest as [|p rest]; cbn in Hstep; injection Hstep as <-; cbn;
        unfold pending; cbn; rewrite ?app_nil_r;
        (split; [reflexivity|]);
        (split; [| exists []; reflexivity]).
      * reflexivity.
      * unfold adds. rewrite filter_app, <- app_assoc. reflexivity.
    + discriminate Hstep.
  - destruct cl as [| |rest|]; cbn in Hstep.
    + injection Hstep as <-. cbn. split; [reflexivity|].
      split; [reflexivity | exists []; reflexivity].
    + destruct (g =? 0); [|discriminate Hstep].
      injection Hstep as <-. cbn. unfold pending. cbn. rewrite app_nil_r.
      split; [reflexivity|].
      split; [reflexivity | exists []; reflexivity].
    + destruct rest as [|p rest]; cbn in Hstep; injection Hstep as <-; cbn;
        unfold pending, adds; cbn; rewrite ?filter_app; cbn;
        rewrite ?app_nil_r;
        (split; [reflexivity|]);
        (split; [reflexivity | exists []; reflexivity]).
    + discriminate Hstep.
Qed.

Lemma closed_run (ls : list label) :
  forall w w' : World,
  closed (addDataChan (mgr w)) = true -> run ls w = Some w' ->
  closed (addDataChan (mgr w')) = true
  /\ adds (trace w') ++ pending w' = adds (trace w) ++ pending w
  /\ (exists popped,
        buf (addDataChan (mgr w)) = popped ++ buf (addDataChan (mgr w'))).
Proof.
  induction ls as [|l ls IH]; intros w w' Hcl Hrun.
  - injection Hrun as <-. split; [assumption|].
    split; [reflexivity | exists []; reflexivity].
  - cbn in Hrun. destruct (step l w) as [w1|] eqn:Hstep; [|discriminate Hrun].
    destruct (closed_step l w w1 Hcl Hstep) as (Hcl1 & Ht1 & p1 & Hb1).
    destruct (IH w1 w' Hcl1 Hrun) as (Hcl' & Ht' & p' & Hb').
    split; [assumption|]. split; [congruence|].
    exists (p1 ++ p'). rewrite Hb1, Hb', app_assoc. reflexivity.
Qed.

Lemma add_all_closed (this : Manager) (d : datapoint) (ds : list datapoint) :
  closed (addDataChan this) = true ->
  add_all this (d :: ds)
  = match Err (ctx this) with
    | Some _ => Returned this
    | None => Panicked sendOnClosedChannel
    end.
Proof.
  intros Hcl. destruct (Err (ctx this)) eqn:Hctx.
  - apply add_all_cancelled. congruence.
  - cbn [add_all]. rewrite add_Some, Hctx, Hcl. reflexivity.
Qed.

(** ** After cancellation *)

Lemma run_app (ls ks : list label) (w : World) :
  run (ls ++ ks) w
  = match run ls w with
    | Some w' => run ks w'
    | None => None
    end.
Proof.
  revert w. induction ls as [|l ls IH]; intros w; [reflexivity|].
  cbn. destruct (step l w); [apply IH | reflexivity].
Qed.

Lemma run_cons (l : label) (ls : list label) (w : World) :
  run (l :: ls) w
  = match step l w with
    | Some w' => run ls w'
    | None => None
    end.
Proof. reflexivity. Qed.

Lemma forward_datapoint (m : Manager) (data : datapoint)
    (rest : list publisher) (cl : closer) (s : list datapoint) :
  forall t : list call,
  run (repeat Lforward (S (List.length rest)))
    {| mgr := m; fwd := fwdAdd data rest; cls := cl; sending := s;
       trace := t; crashed := None |}
  = Some {| mgr := m; fwd := fwdRange; cls := cl; sending := s;
            trace := t ++ fan_out rest data; crashed := None |}.
Proof.
  induction rest as [|p rest IH]; intros t.
  - cbn. rewrite app_nil_r. reflexivity.
  - change (repeat Lforward (S (List.length (p :: rest))))
      with (Lforward :: repeat Lforward (S (List.length rest))).
    rewrite run_cons.
    change (step Lforward
              {| mgr := m; fwd := fwdAdd data (p :: rest); cls := cl;
                 sending := s; trace := t; crashed := None |})
      with (Some {| mgr := m; fwd := fwdAdd data rest; cls := cl;
                    sending := s;
                    trace := t ++ [record p data]; crashed := None |}).
    cbv beta iota. rewrite IH, <- app_assoc. reflexivity.
Qed.

Lemma forward_buffer (g : Z) (c : Context) (cf : Config)
    (ps : list publisher) (k : Z) (cl : closer) (s : list datapoint)
    (b : list datapoint) :
  forall t : list call,
  run (repeat Lforward (List.length b * (List.length ps + 2)))
    {| mgr := {| wg := g; ctx := c; config := cf; publishers := ps;
                 addDataChan := {| buf := b; cap := k; closed := false |} |};
       fwd := fwdRange; cls := cl; sending := s; trace := t;
       crashed := None |}
  = Some {| mgr := {| wg := g; ctx := c; config := cf; publishers := ps;
                      addDataChan := {| buf := []; cap := k; closed := false |} |};
            fwd := fwdRange; cls := cl; sending := s;
            trace := t ++ deliveries ps b; crashed := None |}.
Proof.
  induction b as [|d b IH]; intros t.
  - cbn. rewrite app_nil_r. reflexivity.
  - replace (List.length (d :: b) * (List.length ps + 2))%nat
      with (1 + (S (List.length ps) + List.length b * (List.length ps + 2)))%nat
      by (cbn [List.length]; lia).
    rewrite repeat_app, run_app.
    change (run (repeat Lforward 1)
              {| mgr := {| wg := g; ctx := c; config := cf; publishers := ps;
                           addDataChan := {| buf := d :: b; cap := k;
                                             closed := false |} |};
                 fwd := fwdRange; cls := cl; sending := s; trace := t;
                 crashed := None |})
      with (Some {| mgr := {| wg := g; ctx := c; config := cf;
                              publishers := ps;
                              addDataChan := {| buf := b; cap := k;
                                                closed := false |} |};
                    fwd := fwdAdd d ps; cls := cl; sending := s;
                    trace := t ++ []; crashed := None |}).
    cbv beta iota.
    rewrite app_nil_r, repeat_app, run_app, forward_datapoint, IH,
      deliveries_cons, app_assoc.
    reflexivity.
Qed.

Lemma cancelled_step (l : label) (w w' : World) :
  cancelled_running w -> no_Close l = true -> step l w = Some w' ->
  cancelled_running w'
  /\ trace w' ++ pending w' = trace w ++ pending w.
Proof.
  intros (Hc & Hctx & Hs & Hopen & Hcl & Hf) Hl Hstep.
  destruct w as [[g c cf ps [b k cd]] f cl s t cr].
  cbn in Hc, Hctx, Hs, Hopen, Hcl, Hf. subst cr s cd cl.
  unfold step in Hstep. cbn in Hstep.
  destruct c as [[e|]]; [|exfalso; apply Hctx; reflexivity].
  destruct l; try discriminate Hl; cbn in Hstep.
  - discriminate Hstep.
  - injection Hstep as <-. unfold cancelled_running. cbn. tauto.
  - destruct i; discriminate Hstep.
  - destruct f as [|data rest|]; cbn in Hstep.
    + unfold range_next in Hstep. cbn in Hstep.
      destruct b as [|d b]; [discriminate Hstep|].
      injection Hstep as <-. unfold cancelled_running, pending. cbn.
      rewrite app_nil_r.
      repeat split; try reflexivity; try discriminate.
    + destruct rest as [|p rest]; cbn in Hstep; injection Hstep as <-;
        unfold cancelled_running, pending; cbn;
        rewrite ?app_nil_r, <- ?app_assoc;
        repeat split; try reflexivity; try discriminate; assumption.
    + congruence.
Qed.

Lemma cancelled_run (ls : list label) :
  forall w w' : World,
  cancelled_running w -> forallb no_Close ls = true -> run ls w = Some w' ->
  cancelled_running w'
  /\ trace w' ++ pending w' = trace w ++ pending w.
Proof.
  induction ls as [|l ls IH]; intros w w' Hw Hls Hrun.
  - injection Hrun as <-. auto.
  - cbn in Hls, Hrun. apply andb_prop in Hls. destruct Hls as [Hl Hls].
    destruct (step l w) as [w1|] eqn:Hstep; [|discriminate Hrun].
    destruct (cancelled_step l w w1 Hw Hl Hstep) as (Hw1 & Ht1).
    destruct (IH w1 w' Hw1 Hls Hrun) as (Hw' & Ht').
    split; [assumption | congruence].
Qed.

(** ** Tags *)

Lemma Mapper_tagless (err : option error) (action : string) (count : Z) :
  Forall tagless (Mapper err action count).
Proof.
  unfold Mapper, table_row.
  repeat match goal with
  | |- context [if ?b then _ else _] => destruct b
  end; repeat constructor.
Qed.

Lemma Forall_remove_nth {A : Type} (P : A -> Prop) (l : list A) :
  Forall P l -> forall i, Forall P (remove_nth i l).
Proof.
  induction 1 as [|x l Hx Hl IH]; intros i; [destruct i; constructor|].
  destruct i; cbn; [assumption | constructor; auto].
Qed.

Lemma Forall_nth_error {A : Type} (P : A -> Prop) (l : list A) (i : nat)
    (x : A) :
  Forall P l -> nth_error l i = Some x -> P x.
Proof.
  intros Hl Hx. apply nth_error_In in Hx.
  rewrite Forall_forall in Hl. auto.
Qed.

Lemma untagged_step (l : label) (w w' : World) :
  untagged w -> by_Send l -> step l w = Some w' -> untagged w'.
Proof.
  intros [Hb Hs Hf Ht] Hl Hstep.
  destruct w as [[g c cf ps [b k cd]] f cl s t cr].
  cbn in Hb, Hs, Hf, Ht. unfold step in Hstep. cbn in Hstep.
  destruct cr; [discriminate Hstep|].
  destruct l as [|mo ky v tg|i| |]; cbn in Hstep.
  - destruct c as [[e|]]; cbn in Hstep; [discriminate Hstep|].
    injection Hstep as <-. constructor; assumption.
  - destruct Hl as (err & action & count & Hin).
    assert (Hd : tagless (mkDatapoint mo ky v tg)).
    { pose proof (Mapper_tagless err action count) as HM.
      rewrite Forall_forall in HM. apply HM, Hin. }
    destruct c as [[e|]]; cbn in Hstep; injection Hstep as <-;
      constructor; cbn; try assumption.
    apply Forall_app. split; [assumption | constructor; [exact Hd | constructor]].
  - destruct (nth_error s i) as [d|] eqn:Hi; [|discriminate Hstep].
    pose proof (Forall_nth_error _ _ _ _ Hs Hi) as Hd.
    unfold select_send in Hstep. cbn in Hstep.
    destruct cd; cbn in Hstep;
      [|destruct (full {| buf := b; cap := k; closed := false |}); cbn in Hstep];
      injection Hstep as <-; constructor; cbn; try assumption;
      try (apply Forall_remove_nth; assumption).
    apply Forall_app. split; [assumption | constructor; [exact Hd | constructor]].
  - destruct f as [|data rest|]; cbn in Hstep.
    + unfold range_next in Hstep. cbn in Hstep.
      destruct b as [|d b]; [destruct cd; [|discriminate Hstep]|];
        injection Hstep as <-; constructor; cbn;
        rewrite ?app_nil_r; try assumption; try exact I.
      * inversion Hb; assumption.
      * inversion Hb; assumption.
    + destruct rest as [|p rest]; cbn in Hstep; injection Hstep as <-;
        constructor; cbn; rewrite ?app_nil_r; try assumption; try exact I.
      apply Forall_app. split; [assumption|].
      constructor; [exact Hf | constructor].
    + discriminate Hstep.
  - destruct cl as [| |rest|]; cbn in Hstep.
    + unfold close_chan in Hstep. cbn in Hstep.
      destruct cd; cbn in Hstep; injection Hstep as <-;
        constructor; cbn; rewrite ?app_nil_r; assumption.
    + destruct (g =? 0); [|discriminate Hstep].
      injection Hstep as <-. constructor; cbn; rewrite ?app_nil_r; assumption.
    + destruct rest as [|p rest]; cbn in Hstep; injection Hstep as <-;
        constructor; cbn; rewrite ?app_nil_r; try assumption.
      apply Forall_app. split; [assumption | repeat constructor].
    + discriminate Hstep.
Qed.

Lemma untagged_run (ls : list label) :
  forall w w' : World,
  untagged w -> Forall by_Send ls -> run ls w = Some w' -> untagged w'.
Proof.
  induction ls as [|l ls IH]; intros w w' Hw Hls Hrun.
  - injection Hrun as <-. assumption.
  - cbn in Hrun. inversion Hls as [|? ? Hl Hls']; subst.
    destruct (step l w) as [w1|] eqn:Hstep; [|discriminate Hrun].
    apply (IH w1 w' (untagged_step l w w1 Hw Hl Hstep) Hls' Hrun).
Qed.

Lemma add_all_tagless (ds : list datapoint) :
  Forall tagless ds ->
  forall this this' : Manager,
  Forall tagless (buf (addDataChan this)) ->
  add_all this ds = Returned this' ->
  Forall tagless (buf (addDataChan this')).
Proof.
  induction 1 as [|d ds Hd Hds IH]; intros this this' Hb Hall.
  - injection Hall as <-. assumption.
  - cbn [add_all] in Hall. rewrite add_Some in Hall.
    destruct (Err (ctx this)); cbn [bind] in Hall; [eapply IH; eassumption|].
    destruct (closed (addDataChan this)); [discriminate Hall|].
    destruct (full (addDataChan this)); cbn [bind] in Hall;
      [eapply IH; eassumption|].
    eapply IH; [|exact Hall]. cbn. apply Forall_app.
    split; [assumption | constructor; [|constructor]].
    destruct d; exact Hd.
Qed.

(** * The claims *)



(** C2: whatever the error flag, [Send] enqueues the status increment and
    then the datapoints of the action's row of the table: PutObject adds
    count to bytes_written and increments object_created_count,
    CompleteMultipartUpload increments object_created_count, UploadPart
    adds count to bytes_written, GetObject adds count to bytes_read,
    DeleteObject increments object_removed_count, DeleteObjects adds count
    to object_removed_count, any other action adds nothing.  On a running
    manager with room for three datapoints these are exactly what the
    buffer gains; a successful PutObject of 100 gains three datapoints and
    a failed GetObject of 42 gains two. *)
Theorem Send_applies_table_row (this : Manager) (err : option error)
    (count : Z) (Hrun : running this) (Hroom : room this 3) :
  Send (Some this) err "PutObject" count
    = Returned (enqueued this
        [metric "PutObject" (status_key err) 1;
         metric "PutObject" "bytes_written" count;
         metric "PutObject" "object_created_count" 1])
  /\ Send (Some this) err "CompleteMultipartUpload" count
    = Returned (enqueued this
        [metric "CompleteMultipartUpload" (status_key err) 1;
         metric "CompleteMultipartUpload" "object_created_count" 1])
  /\ Send (Some this) err "UploadPart" count
    = Returned (enqueued this
        [metric "UploadPart" (status_key err) 1;
         metric "UploadPart" "bytes_written" count])
  /\ Send (Some this) err "GetObject" count
    = Returned (enqueued this
        [metric "GetObject" (status_key err) 1;
         metric "GetObject" "bytes_read" count])
  /\ Send (Some this) err "DeleteObject" count
    = Returned (enqueued this
        [metric "DeleteObject" (status_key err) 1;
         metric "DeleteObject" "object_removed_count" 1])
  /\ Send (Some this) err "DeleteObjects" count
    = Returned (enqueued this
        [metric "DeleteObjects" (status_key err) 1;
         metric "DeleteObjects" "object_removed_count" count])
  /\ (forall action : string,
        ~ In (module_of action) table_actions ->
        Send (Some this) err action count
        = Returned (enqueued this [metric (module_of action) (status_key err) 1]))
  /\ (forall (m : receiver) (action : string),
        Send m err action count
        = (this <- deref m ;; add_all this (Mapper err action count)))
  /\ Send (Some example_manager) None "PutObject" 100
    = Returned (enqueued example_manager
        [metric "PutObject" "success_count" 1;
         metric "PutObject" "bytes_written" 100;
         metric "PutObject" "object_created_count" 1])
  /\ Send (Some example_manager) (Some (errorString "NoSuchKey")) "GetObject" 42
    = Returned (enqueued example_manager
        [metric "GetObject" "failed_count" 1;
         metric "GetObject" "bytes_read" 42]).
Proof.
  assert (Hrow : forall action,
    Send (Some this) err action count
    = Returned (enqueued this (Mapper err action count))).
  { intros action. rewrite Send_Mapper. cbn [deref bind].
    apply add_all_room; [assumption|].
    unfold room in *. unfold Mapper, table_row. cbn [List.length].
    repeat match goal with
    | |- context [if ?b then _ else _] => destruct b
    end; cbn [List.length]; lia. }
  do 6 (split; [rewrite Hrow; reflexivity|]).
  split.
  { intros action Hother. rewrite Hrow. unfold Mapper, table_row.
    unfold table_actions in Hother. cbn [In] in Hother.
    repeat match goal with
    | |- context [String.eqb ?a ?s] =>
        destruct (String.eqb_spec a s); [exfalso; apply Hother; auto 10|]
    end.
    reflexivity. }
  split; [intros m action; apply Send_Mapper|].
  split; vm_compute; reflexivity.
Qed.

Lemma Send_applies_table_row_witness :
  running example_manager /\ room example_manager 3
  /\ Send (Some example_manager) None "HeadBucket" 7
     = Returned (enqueued example_manager [metric "HeadBucket" "success_count" 1]).
Proof.
  assert (Hrun : running example_manager) by (split; reflexivity).
  assert (Hroom : room example_manager 3) by (vm_compute; discriminate).
  split; [exact Hrun|]. split; [exact Hroom|].
  destruct (Send_applies_table_row example_manager None 7 Hrun Hroom)
    as (_ & _ & _ & _ & _ & _ & Hother & _).
  apply Hother. vm_compute. intuition discriminate.
Defined.

(** C3: [Send] first replaces an empty action by the sentinel
    "undetected-action", then enqueues one status increment of value 1
    under module = action, with key failed_count when the error is set and
    success_count otherwise; the increment comes before the datapoints of
    the action's row, none of which has a status key.  A successful
    outcome with an empty action gives exactly the one datapoint
    success_count +1 under "undetected-action". *)
Theorem Send_status_increment_first (err : option error) (action : string)
    (count : Z) :
  (forall m : receiver,
     Send m err action count
     = (this <- deref m ;;
        add_all this
          ({| module := if (action =? "")%string then "undetected-action"
                        else action;
              key := match err with
                     | Some _ => "failed_count"
                     | None => "success_count"
                     end;
              value := 1; tags := [] |}
           :: table_row (module_of action) count)))
  /\ Forall (fun d => module d = module_of action
                      /\ key d <> "failed_count"
                      /\ key d <> "success_count")
       (table_row (module_of action) count)
  /\ (forall m : receiver,
        Send m None "" 0
        = (this <- deref m ;;
           add (Some this) "undetected-action" "success_count" 1 []))
  /\ Send (Some example_manager) None "" 0
     = Returned (enqueued example_manager
         [metric "undetected-action" "success_count" 1]).
Proof.
  split; [intros m; apply Send_Mapper|].
  split.
  { unfold table_row.
    repeat match goal with
    | |- context [if ?b then _ else _] => destruct b
    end; repeat constructor; cbn; discriminate. }
  split; [|vm_compute; reflexivity].
  intros m. rewrite Send_Mapper. destruct m as [this|]; [|reflexivity].
  cbn [deref bind]. unfold Mapper. cbn. apply bind_Returned.
Qed.

(** C4, as stated, fails once [Close] has closed the channel: with the
    context live and the buffer full, [add] does not discard the datapoint
    and return, it panics on the send. *)
Lemma add_full_after_Close_panics :
  Err (ctx full_closed_manager) = None
  /\ full (addDataChan full_closed_manager) = true
  /\ add (Some full_closed_manager) "GetObject" "bytes_read" 42 []
     = Panicked sendOnClosedChannel
  /\ ~ (exists this',
          add (Some full_closed_manager) "GetObject" "bytes_read" 42 []
          = Returned this').
Proof.
  assert (H : add (Some full_closed_manager) "GetObject" "bytes_read" 42 []
              = Panicked sendOnClosedChannel) by (vm_compute; reflexivity).
  split; [reflexivity|]. split; [vm_compute; reflexivity|].
  split; [exact H|]. intros [this' H']. rewrite H in H'. discriminate.
Qed.

(** C4, amended: while the channel has not been closed, [add] returns (it
    never blocks and never fails): with the cancellation signal set the
    manager is returned as it was; otherwise the datapoint is appended to
    the buffer when there is room and the manager is returned as it was
    when the buffer is full.  Nothing but the buffer changes, and [Send]
    as a whole returns too. *)
Theorem add_returns_while_open (this : Manager) (module key : string)
    (value : Z) (tags : list Tag)
    (Hopen : closed (addDataChan this) = false) :
  (exists this', add (Some this) module key value tags = Returned this')
  /\ (Err (ctx this) <> None ->
      add (Some this) module key value tags = Returned this)
  /\ (Err (ctx this) = None -> full (addDataChan this) = true ->
      add (Some this) module key value tags = Returned this)
  /\ (Err (ctx this) = None -> full (addDataChan this) = false ->
      add (Some this) module key value tags
      = Returned (enqueued this [mkDatapoint module key value tags]))
  /\ (forall err action count,
        exists this', Send (Some this) err action count = Returned this').
Proof.
  rewrite add_Some, Hopen.
  split; [|split; [|split; [|split]]].
  - destruct (Err (ctx this)); [eexists; reflexivity|].
    destruct (full (addDataChan this)); eexists; reflexivity.
  - intros Hctx. destruct (Err (ctx this)); [reflexivity | congruence].
  - intros Hctx Hfull. rewrite Hctx, Hfull. reflexivity.
  - intros Hctx Hfull. rewrite Hctx, Hfull. reflexivity.
  - intros err action count. rewrite Send_Mapper. cbn [deref bind].
    destruct (add_all_open this (Mapper err action count) Hopen)
      as [this' [H _]].
    exists this'. exact H.
Qed.

Lemma add_returns_while_open_witness :
  closed (addDataChan full_manager) = false
  /\ add (Some full_manager) "GetObject" "bytes_read" 42 []
     = Returned full_manager.
Proof.
  assert (Hopen : closed (addDataChan full_manager) = false) by reflexivity.
  split; [exact Hopen|].
  destruct (add_returns_while_open full_manager "GetObject" "bytes_read" 42 []
              Hopen) as (_ & _ & Hfull & _).
  apply Hfull; vm_compute; reflexivity.
Defined.

(** C5: setting the cancellation signal changes nothing but the context:
    the buffer, the forwarder and the calls it still has to make are as
    before.  From then on every [Send] returns the manager as it was, and
    in every schedule without [Close] whoever enters [add] leaves the
    process as it is, the forwarder never exits, and the calls made
    together with the calls still to be made stay what they were at the
    signal; the forwarder alone delivers all of them and then waits at an
    empty buffer. *)
Theorem cancellation_only_stops_ingestion (w : World)
    (Hcrashed : crashed w = None) (Hlive : Err (ctx (mgr w)) = None)
    (Hsending : sending w = [])
    (Hopen : closed (addDataChan (mgr w)) = false)
    (Hcls : cls w = closeEntry) (Hfwd : fwd w <> fwdDone) :
  exists wc : World,
    step Lcancel w = Some wc
    /\ Err (ctx (mgr wc)) <> None
    /\ addDataChan (mgr wc) = addDataChan (mgr w)
    /\ fwd wc = fwd w /\ trace wc = trace w /\ pending wc = pending w
    /\ (forall err action count,
          Send (Some (mgr wc)) err action count = Returned (mgr wc))
    /\ (forall (ls : list label) (w' : World),
          forallb no_Close ls = true -> run ls wc = Some w' ->
          trace w' ++ pending w' = trace w ++ pending w
          /\ fwd w' <> fwdDone /\ crashed w' = None
          /\ Err (ctx (mgr w')) <> None /\ sending w' = []
          /\ (forall module key value tags,
                step (Ladd module key value tags) w' = Some w'))
    /\ (exists (n : nat) (w' : World),
          run (repeat Lforward n) wc = Some w'
          /\ trace w' = trace w ++ pending w
          /\ buf (addDataChan (mgr w')) = []
          /\ fwd w' = fwdRange
          /\ step Lforward w' = None).
Proof.
  destruct w as [[g c cf ps [b k cd]] f cl s t cr].
  cbn in Hcrashed, Hlive, Hsending, Hopen, Hcls, Hfwd. subst cr s cd cl.
  destruct c as [[e|]]; [discriminate Hlive|]. clear Hlive.
  eexists. split; [reflexivity|]. cbn.
  split; [discriminate|]. do 4 (split; [reflexivity|]).
  split; [|split].
  - intros err action count. rewrite Send_Mapper. cbn [deref bind].
    apply add_all_cancelled. discriminate.
  - intros ls w' Hls Hrun.
    match type of Hrun with run ls ?wc = _ =>
      assert (Hwc : cancelled_running wc)
        by (unfold cancelled_running; cbn; repeat split;
            try reflexivity; try discriminate; assumption);
      destruct (cancelled_run ls wc w' Hwc Hls Hrun)
        as ((Hc' & Hctx' & Hs' & Hopen' & Hcl' & Hf') & Ht')
    end.
    split; [exact Ht'|]. do 4 (split; [assumption|]).
    intros mo ky v tg. unfold step. rewrite Hc'.
    destruct (Err (ctx (mgr w'))); [reflexivity | congruence].
  - destruct f as [|data rest|]; [| |congruence].
    + exists (List.length b * (List.length ps + 2))%nat. eexists.
      split; [apply forward_buffer|]. cbn. auto.
    + exists (S (List.length rest) + List.length b * (List.length ps + 2))%nat.
      eexists. rewrite repeat_app, run_app, forward_datapoint.
      split; [apply forward_buffer|]. cbn. unfold pending. cbn.
      rewrite app_assoc. auto.
Qed.

Lemma cancellation_only_stops_ingestion_witness :
  exists wc : World,
    step Lcancel two_buffered = Some wc
    /\ Err (ctx (mgr wc)) <> None
    /\ addDataChan (mgr wc) = addDataChan (mgr two_buffered)
    /\ Send (Some (mgr wc)) None "PutObject" 100 = Returned (mgr wc).
Proof.
  destruct (cancellation_only_stops_ingestion two_buffered eq_refl eq_refl
              eq_refl eq_refl eq_refl ltac:(discriminate))
    as (wc & Hstep & Hctx & Hchan & _ & _ & _ & Hsend & _).
  exists wc. repeat split; try assumption. apply Hsend.
Defined.

(** C6: once [Close] has closed the channel it stays closed, and from
    then on, whatever the goroutines do, the buffer only loses datapoints
    from its front, and every [Add] call made on a publisher is for a
    datapoint that the forwarder held or the buffer contained when the
    channel was closed; a [Send] (or an [add]) then returns the manager as
    it was when the context is cancelled and panics on the send otherwise,
    so it never enqueues. *)
Theorem no_enqueue_after_Close (w w' : World) (ls : list label)
    (Hclosed : closed (addDataChan (mgr w)) = true)
    (Hrun : run ls w = Some w') :
  closed (addDataChan (mgr w')) = true
  /\ (exists popped,
        buf (addDataChan (mgr w)) = popped ++ buf (addDataChan (mgr w')))
  /\ adds (trace w') ++ pending w' = adds (trace w) ++ pending w
  /\ (forall err action count,
        Send (Some (mgr w')) err action count
        = match Err (ctx (mgr w')) with
          | Some _ => Returned (mgr w')
          | None => Panicked sendOnClosedChannel
          end)
  /\ (forall module key value tags,
        add (Some (mgr w')) module key value tags
        = match Err (ctx (mgr w')) with
          | Some _ => Returned (mgr w')
          | None => Panicked sendOnClosedChannel
          end).
Proof.
  destruct (closed_run ls w w' Hclosed Hrun) as (Hcl' & Ht & Hb).
  split; [assumption|]. split; [assumption|]. split; [assumption|].
  split.
  - intros err action count. rewrite Send_Mapper. cbn [deref bind].
    unfold Mapper. apply add_all_closed, Hcl'.
  - intros mo k v t. rewrite add_Some, Hcl'. reflexivity.
Qed.

Lemma no_enqueue_after_Close_witness :
  closed (addDataChan (mgr closed_with_sender)) = true
  /\ exists w' : World,
       run late_schedule closed_with_sender = Some w'
       /\ crashed w' = Some sendOnClosedChannel
       /\ closed (addDataChan (mgr w')) = true
       /\ adds (trace w') ++ pending w'
          = deliveries example_publishers
              [metric "PutObject" "success_count" 1].
Proof.
  split; [reflexivity|].
  destruct (run late_schedule closed_with_sender) as [w'|] eqn:Hrun;
    [|vm_compute in Hrun; discriminate Hrun].
  exists w'. split; [reflexivity|].
  split; [vm_compute in Hrun; injection Hrun as <-; reflexivity|].
  destruct (no_enqueue_after_Close closed_with_sender w' late_schedule
              eq_refl Hrun) as (Hcl & _ & Hadds & _).
  split; [exact Hcl | exact Hadds].
Defined.

(** C7, as stated, fails: the manager that [NewManager] returns for a
    configuration without endpoints is the nil pointer, and neither [Send]
    nor [Close] returns when called on it. *)
Lemma Send_on_absent_manager_panics :
  let m := fst (NewManager (inl "host") no_plugin no_plugin Background
                  unconfigured) in
  m = None
  /\ ~ (exists this', Send m None "PutObject" 100 = Returned this')
  /\ ~ (exists r, Close m closeEntry = Some (Returned r)).
Proof.
  cbv zeta. split; [reflexivity|].
  split; intros [x H]; vm_compute in H; discriminate.
Qed.

(** C7, amended: without backend endpoints [NewManager] returns the nil
    manager and no error, whatever the service name and the host name;
    [Send] and [Close] have no guard for the nil manager and panic on the
    first use of a field, before any effect. *)
Theorem NewManager_absent_without_endpoints
    (Hostname : string + error)
    (newStatsd newDogStatsd : string -> string -> publisher + error)
    (c : Context) (conf : Config)
    (Hstatsd : StatsdServers conf = "")
    (Hdog : DogStatsdServers conf = "") :
  NewManager Hostname newStatsd newDogStatsd c conf = (None, None)
  /\ (forall err action count,
        Send None err action count = Panicked nilDereference)
  /\ (forall module key value tags,
        add None module key value tags = Panicked nilDereference)
  /\ Close None closeEntry = Some (Panicked nilDereference).
Proof.
  split; [apply NewManager_unconfigured; assumption|].
  split; [|split; reflexivity].
  intros err action count. rewrite Send_Mapper. reflexivity.
Qed.

Lemma NewManager_absent_without_endpoints_witness :
  NewManager (inr (errorString "no host name")) no_plugin no_plugin
    Background unconfigured = (None, None)
  /\ Send None None "PutObject" 100 = Panicked nilDereference.
Proof.
  destruct (NewManager_absent_without_endpoints
              (inr (errorString "no host name")) no_plugin no_plugin
              Background unconfigured eq_refl eq_refl) as (Hnew & Hsend & _).
  split; [exact Hnew | apply Hsend].
Defined.

(** C8, as stated, fails: with the service name set and the host name
    resolvable, construction still fails when the constructor of a
    configured plugin returns an error. *)
Lemma NewManager_fails_on_plugin_error :
  ServiceName statsd_only <> ""
  /\ NewManager (inl "host") no_plugin no_plugin Background statsd_only
     = (None, Some (errorString "no such plugin"))
  /\ ~ (forall Hostname newStatsd newDogStatsd c conf,
          snd (NewManager Hostname newStatsd newDogStatsd c conf) <> None
          <-> (ServiceName conf = "" /\ exists e, Hostname = inr e)).
Proof.
  split; [discriminate|]. split; [reflexivity|].
  intros H.
  destruct (proj1 (H (inl "host") no_plugin no_plugin Background statsd_only))
    as [Hname _]; [discriminate | discriminate Hname].
Qed.

(** C8, amended: construction fails exactly when a backend endpoint is
    configured and either the service name is unset and the host name
    cannot be resolved (the error wraps the resolver's), or the constructor
    of a configured plugin returns an error (passed on as it is); an error
    never comes with a manager; with the service name unset and the host
    name resolved, the plugins and the manager's configuration get the host
    name; without endpoints the result is the nil manager and no error,
    whatever the service name.  The error of the two loops is returned as
    it is; every error that [NewManager] returns is either the wrapped
    error of the resolver or, unchanged, the error that [newStatsd] or
    [newDogStatsd] returned on one of the configured entries; and the loops
    fail exactly when one of these constructors fails on a configured
    entry. *)
Theorem NewManager_fails_exactly_when
    (Hostname : string + error)
    (newStatsd newDogStatsd : string -> string -> publisher + error)
    (c : Context) (conf : Config) :
  (snd (NewManager Hostname newStatsd newDogStatsd c conf) <> None
   <-> endpoints conf
       /\ ((ServiceName conf = "" /\ exists e, Hostname = inr e)
           \/ (exists name e, named Hostname conf name
                 /\ plugins newStatsd newDogStatsd name conf = inr e)))
  /\ (snd (NewManager Hostname newStatsd newDogStatsd c conf) <> None ->
      fst (NewManager Hostname newStatsd newDogStatsd c conf) = None)
  /\ (forall e, endpoints conf -> ServiceName conf = "" -> Hostname = inr e ->
        NewManager Hostname newStatsd newDogStatsd c conf
        = (None, Some (wrapError "failed to get hostname" e)))
  /\ (forall hostname pubs,
        endpoints conf -> ServiceName conf = "" -> Hostname = inl hostname ->
        plugins newStatsd newDogStatsd hostname conf = inl pubs ->
        NewManager Hostname newStatsd newDogStatsd c conf
        = (Some {| wg := 1; ctx := c;
                   config := {| ServiceName := hostname;
                                StatsdServers := StatsdServers conf;
                                DogStatsdServers := DogStatsdServers conf |};
                   publishers := pubs;
                   addDataChan := make_chan dataItemCount |}, None))
  /\ (StatsdServers conf = "" -> DogStatsdServers conf = "" ->
      NewManager Hostname newStatsd newDogStatsd c conf = (None, None))
  /\ (forall name e,
        endpoints conf -> named Hostname conf name ->
        plugins newStatsd newDogStatsd name conf = inr e ->
        NewManager Hostname newStatsd newDogStatsd c conf = (None, Some e))
  /\ (forall e,
        snd (NewManager Hostname newStatsd newDogStatsd c conf) = Some e ->
        (ServiceName conf = ""
         /\ exists e0, Hostname = inr e0
              /\ e = wrapError "failed to get hostname" e0)
        \/ (exists name server,
              named Hostname conf name
              /\ ((In server (entries (StatsdServers conf))
                   /\ newStatsd server name = inr e)
                  \/ (In server (entries (DogStatsdServers conf))
                      /\ newDogStatsd server name = inr e))))
  /\ (forall name,
        named Hostname conf name ->
        ((exists e, plugins newStatsd newDogStatsd name conf = inr e)
         <-> exists server e,
               (In server (entries (StatsdServers conf))
                /\ newStatsd server name = inr e)
               \/ (In server (entries (DogStatsdServers conf))
                   /\ newDogStatsd server name = inr e))).
Proof.
  assert (Hcases :
    (~ endpoints conf
     /\ NewManager Hostname newStatsd newDogStatsd c conf = (None, None))
    \/ (endpoints conf /\ ServiceName conf = "" /\ exists e, Hostname = inr e)
    \/ (endpoints conf /\ exists name, named Hostname conf name)).
  { destruct (String.eqb_spec (StatsdServers conf) "") as [Hs|Hs];
      [destruct (String.eqb_spec (DogStatsdServers conf) "") as [Hd|Hd]|].
    - left. split; [unfold endpoints; tauto|].
      apply NewManager_unconfigured; assumption.
    - right. assert (endpoints conf) by (right; assumption).
      destruct (named_or_unresolved Hostname conf); tauto.
    - right. assert (endpoints conf) by (left; assumption).
      destruct (named_or_unresolved Hostname conf); tauto. }
  split; [|split; [|split; [|split; [|split; [|split; [|split]]]]]].
  - destruct Hcases as [[Hno Heq] | [(Hend & Hname & e & Hhost) | (Hend & name & Hnamed)]].
    + rewrite Heq. cbn [snd]. split; [congruence | tauto].
    + rewrite (NewManager_hostname_error _ _ _ c conf e Hend Hname Hhost).
      cbn [snd]. split; [intros _ | discriminate].
      split; [assumption | left; eauto].
    + rewrite (NewManager_named _ newStatsd newDogStatsd c conf name Hend Hnamed).
      destruct (plugins newStatsd newDogStatsd name conf) as [pubs|e] eqn:Hp;
        cbn [snd]; split.
      * congruence.
      * intros (_ & [(Hname & e & Hhost) | (name' & e & Hnamed' & Hp')]).
        -- destruct Hnamed as [[Hset _] | [_ Hh]]; congruence.
        -- rewrite (named_unique _ _ _ _ Hnamed' Hnamed) in Hp'. congruence.
      * intros _. split; [assumption|]. right. exists name, e. auto.
      * discriminate.
  - destruct Hcases as [[Hno Heq] | [(Hend & Hname & e & Hhost) | (Hend & name & Hnamed)]].
    + rewrite Heq. reflexivity.
    + rewrite (NewManager_hostname_error _ _ _ c conf e Hend Hname Hhost).
      reflexivity.
    + rewrite (NewManager_named _ newStatsd newDogStatsd c conf name Hend Hnamed).
      destruct (plugins newStatsd newDogStatsd name conf); cbn [fst snd];
        congruence.
  - intros e Hend Hname Hhost. apply NewManager_hostname_error; assumption.
  - intros hostname pubs Hend Hname Hhost Hp.
    rewrite (NewManager_named _ newStatsd newDogStatsd c conf hostname Hend);
      [rewrite Hp; reflexivity | right; auto].
  - apply NewManager_unconfigured.
  - intros name e Hend Hnamed Hp.
    rewrite (NewManager_named _ newStatsd newDogStatsd c conf name Hend Hnamed).
    rewrite Hp. reflexivity.
  - intros e He.
    destruct Hcases as [[Hno Heq] | [(Hend & Hname & e0 & Hhost) | (Hend & name & Hnamed)]].
    + rewrite Heq in He. discriminate He.
    + rewrite (NewManager_hostname_error _ _ _ c conf e0 Hend Hname Hhost) in He.
      cbn [snd] in He. injection He as <-. left. eauto.
    + rewrite (NewManager_named _ newStatsd newDogStatsd c conf name Hend Hnamed)
        in He.
      destruct (plugins newStatsd newDogStatsd name conf) as [pubs|e'] eqn:Hp;
        cbn [snd] in He; [discriminate He|].
      injection He as ->. right.
      destruct (plugins_inr _ _ _ _ _ Hp) as [server Hs].
      exists name, server. split; assumption.
  - intros name _. apply plugins_fails_iff.
Qed.

Lemma NewManager_fails_exactly_when_witness :
  NewManager (inl "host") statsd_plugin dogstatsd_plugin Background both_unnamed
  = (Some {| wg := 1; ctx := Background;
             config := {| ServiceName := "host";
                          StatsdServers := "a:8125,b:8125";
                          DogStatsdServers := "c:8126" |};
             publishers :=
               [ {| plugin := "statsd"; endpoint := "a:8125"; service := "host" |};
                 {| plugin := "statsd"; endpoint := "b:8125"; service := "host" |};
                 {| plugin := "dogstatsd"; endpoint := "c:8126"; service := "host" |} ];
             addDataChan := make_chan dataItemCount |}, None).
Proof.
  destruct (NewManager_fails_exactly_when (inl "host") statsd_plugin
              dogstatsd_plugin Background both_unnamed)
    as (_ & _ & _ & Hok & _).
  apply Hok; [left; discriminate | reflexivity | reflexivity | reflexivity].
Defined.

(** C9: in [add] the check of the context comes before the channel is
    touched, so with the cancellation signal set [Send] (and every [add])
    returns the manager as it was, whatever the state of the channel, also
    after [Close] has closed it; a caller entering [add] then leaves the
    process as it is and never reaches the [select]. *)
Theorem Send_cancelled_touches_nothing (this : Manager) (err : option error)
    (action : string) (count : Z) (Hctx : Err (ctx this) <> None) :
  Send (Some this) err action count = Returned this
  /\ (forall module key value tags,
        add (Some this) module key value tags = Returned this)
  /\ (forall (w : World) module key value tags,
        mgr w = this -> crashed w = None ->
        step (Ladd module key value tags) w = Some w).
Proof.
  split; [|split].
  - rewrite Send_Mapper. cbn [deref bind]. apply add_all_cancelled, Hctx.
  - intros mo k v t. rewrite add_Some.
    destruct (Err (ctx this)); [reflexivity | congruence].
  - intros w mo k v t Hm Hc. unfold step. rewrite Hc, Hm.
    destruct (Err (ctx this)); [reflexivity | congruence].
Qed.

Lemma Send_cancelled_touches_nothing_witness :
  Err (ctx cancelled_closed_manager) <> None
  /\ closed (addDataChan cancelled_closed_manager) = true
  /\ Send (Some cancelled_closed_manager) None "PutObject" 100
     = Returned cancelled_closed_manager.
Proof.
  assert (Hctx : Err (ctx cancelled_closed_manager) <> None)
    by (vm_compute; discriminate).
  split; [exact Hctx|]. split; [reflexivity|].
  apply (Send_cancelled_touches_nothing cancelled_closed_manager None
           "PutObject" 100 Hctx).
Defined.

(** C10: every datapoint that [Send] hands to [add] has no tags, so a
    [Send] on a buffer whose datapoints have no tags leaves such a buffer,
    and in a process
    started with an empty buffer in which every [add] comes from a [Send],
    every [Add] call that reaches a publisher has no tags. *)
Theorem Send_attaches_no_tags :
  (forall (m : receiver) (err : option error) (action : string) (count : Z),
     exists ds : list datapoint,
       Forall (fun d => tags d = []) ds
       /\ Send m err action count = (this <- deref m ;; add_all this ds))
  /\ (forall (this this' : Manager) (err : option error) (action : string)
        (count : Z),
        Forall (fun d => tags d = []) (buf (addDataChan this)) ->
        Send (Some this) err action count = Returned this' ->
        Forall (fun d => tags d = []) (buf (addDataChan this')))
  /\ (forall (m : Manager) (ls : list label) (w : World),
        buf (addDataChan m) = [] -> Forall by_Send ls ->
        run ls (boot m) = Some w ->
        forall p module key value tags,
          In (publisher_Add p module key value tags) (trace w) -> tags = []).
Proof.
  split; [|split].
  - intros m err action count. exists (Mapper err action count).
    split; [apply Mapper_tagless | apply Send_Mapper].
  - intros this this' err action count Hb Hsend.
    rewrite Send_Mapper in Hsend. cbn [deref bind] in Hsend.
    apply (add_all_tagless _ (Mapper_tagless err action count) this this' Hb Hsend).
  - intros m ls w Hempty Hls Hrun p mo ky v tg Hin.
    assert (H0 : untagged (boot m)).
    { constructor; cbn; try constructor. rewrite Hempty. constructor. }
    pose proof (ut_trace w (untagged_run ls (boot m) w H0 Hls Hrun)) as Ht.
    rewrite Forall_forall in Ht. apply (Ht _ Hin).
Qed.

Lemma Send_attaches_no_tags_witness :
  exists w : World,
    run report_schedule (boot example_manager) = Some w
    /\ (exists p module key value tags,
          In (publisher_Add p module key value tags) (trace w))
    /\ (forall p module key value tags,
          In (publisher_Add p module key value tags) (trace w) -> tags = []).
Proof.
  destruct (run report_schedule (boot example_manager)) as [w|] eqn:Hrun;
    [|vm_compute in Hrun; discriminate Hrun].
  exists w. split; [reflexivity|]. split.
  - vm_compute in Hrun. injection Hrun as <-.
    do 5 eexists. left. reflexivity.
  - destruct Send_attaches_no_tags as (_ & _ & Hsys).
    apply (Hsys example_manager report_schedule w eq_refl); [|exact Hrun].
    repeat constructor;
      exists None, "PutObject", 100; cbn; auto.
Defined.

(** * Further properties *)

(** ** [Send] under backpressure *)









(** ** What no schedule changes *)

Ltac explode :=
  repeat (cbn in *;
    match goal with
    | H : Some _ = None |- _ => discriminate H
    | H : None = Some _ |- _ => discriminate H
    | H : Returned _ = Panicked _ |- _ => discriminate H
    | H : Panicked _ = Returned _ |- _ => discriminate H
    | H : Some _ = Some _ |- _ => inversion H; subst; clear H
    | H : Returned _ = Returned _ |- _ => inversion H; subst; clear H
    | H : context [match ?x with _ => _ end] |- _ => is_var x; destruct x
    | H : context [match ?x with _ => _ end] |- _ =>
        lazymatch x with
        | context [match _ with _ => _ end] => fail
        | _ => destruct x eqn:?
        end
    end).

Ltac open_step w H :=
  destruct w as [[g c cf ps [b k cd]] f cl s t cr];
  destruct c as [c];
  unfold step, addForwarder, Close, select_send, close_chan, range_next in H;
  explode.

Lemma step_frame (l : label) (w w' : World) :
  step l w = Some w' ->
  publishers (mgr w') = publishers (mgr w)
  /\ config (mgr w') = config (mgr w)
  /\ cap (addDataChan (mgr w')) = cap (addDataChan (mgr w))
  /\ (Err (ctx (mgr w)) <> None -> Err (ctx (mgr w')) <> None)
  /\ (Z.of_nat (List.length (buf (addDataChan (mgr w))))
      <= cap (addDataChan (mgr w)) ->
      Z.of_nat (List.length (buf (addDataChan (mgr w'))))
      <= cap (addDataChan (mgr w'))).
Proof.
  intros Hstep. open_step w Hstep;
    repeat split; try reflexivity; try discriminate; try tauto;
    try (intros; cbn in *; lia).
  all: try (intros Hle; unfold full in *; cbn in *;
            rewrite ?length_app; cbn;
            match goal with
            | H : (_ <=? _) = false |- _ => apply Z.leb_gt in H
            end; lia).
Qed.

Lemma run_frame (ls : list label) :
  forall w w' : World,
  run ls w = Some w' ->
  publishers (mgr w') = publishers (mgr w)
  /\ config (mgr w') = config (mgr w)
  /\ cap (addDataChan (mgr w')) = cap (addDataChan (mgr w))
  /\ (Err (ctx (mgr w)) <> None -> Err (ctx (mgr w')) <> None)
  /\ (Z.of_nat (List.length (buf (addDataChan (mgr w))))
      <= cap (addDataChan (mgr w)) ->
      Z.of_nat (List.length (buf (addDataChan (mgr w'))))
      <= cap (addDataChan (mgr w'))).
Proof.
  induction ls as [|l ls IH]; intros w w' Hrun.
  - injection Hrun as <-. tauto.
  - cbn in Hrun. destruct (step l w) as [w1|] eqn:Hstep; [|discriminate Hrun].
    destruct (step_frame l w w1 Hstep) as (Hp & Hc & Hk & He & Hb).
    destruct (IH w1 w' Hrun) as (Hp' & Hc' & Hk' & He' & Hb').
    repeat split; try congruence; auto.
Qed.

(** X3: whatever the goroutines do, the capacity of the buffer stays the
    one the channel was made with and the buffer never holds more
    datapoints than that. *)
Theorem buffer_stays_within_capacity (w w' : World) (ls : list label)
    (Hfits : Z.of_nat (List.length (buf (addDataChan (mgr w))))
             <= cap (addDataChan (mgr w)))
    (Hrun : run ls w = Some w') :
  cap (addDataChan (mgr w')) = cap (addDataChan (mgr w))
  /\ Z.of_nat (List.length (buf (addDataChan (mgr w'))))
     <= cap (addDataChan (mgr w)).
Proof.
  destruct (run_frame ls w w' Hrun) as (_ & _ & Hk & _ & Hb).
  split; [exact Hk|]. rewrite <- Hk. apply Hb, Hfits.
Qed.

Lemma buffer_stays_within_capacity_witness :
  exists w : World,
    run report_schedule two_buffered = Some w
    /\ cap (addDataChan (mgr w)) = dataItemCount
    /\ Z.of_nat (List.length (buf (addDataChan (mgr w)))) <= dataItemCount.
Proof.
  destruct (run report_schedule two_buffered) as [w|] eqn:Hrun;
    [|vm_compute in Hrun; discriminate Hrun].
  exists w. split; [reflexivity|].
  apply (buffer_stays_within_capacity two_buffered w report_schedule);
    [vm_compute; discriminate | exact Hrun].
Defined.

(** X4: whatever the goroutines do, the list of publishers and the
    configuration of the manager stay as [NewManager] set them, and a
    context that is cancelled stays cancelled. *)
Theorem publishers_fixed_and_cancel_permanent (w w' : World)
    (ls : list label) (Hrun : run ls w = Some w') :
  publishers (mgr w') = publishers (mgr w)
  /\ config (mgr w') = config (mgr w)
  /\ (Err (ctx (mgr w)) <> None -> Err (ctx (mgr w')) <> None).
Proof.
  destruct (run_frame ls w w' Hrun) as (Hp & Hc & _ & He & _). auto.
Qed.

Lemma publishers_fixed_and_cancel_permanent_witness :
  exists w : World,
    run cancel_schedule two_buffered = Some w
    /\ publishers (mgr w) = example_publishers.
Proof.
  destruct (run cancel_schedule two_buffered) as [w|] eqn:Hrun;
    [|vm_compute in Hrun; discriminate Hrun].
  exists w. split; [reflexivity|].
  destruct (publishers_fixed_and_cancel_permanent two_buffered w
              cancel_schedule Hrun) as (Hp & _).
  exact Hp.
Defined.

(** ** Every accepted datapoint is delivered once, in order *)

Lemma deliveries_app (pubs : list publisher) (ds es : list datapoint) :
  deliveries pubs (ds ++ es) = deliveries pubs ds ++ deliveries pubs es.
Proof. apply flat_map_app. Qed.

Lemma accept_step (l : label) (w w' : World) :
  (fwd w = fwdDone -> closed (addDataChan (mgr w)) = true) ->
  step l w = Some w' ->
  (fwd w' = fwdDone -> closed (addDataChan (mgr w')) = true)
  /\ adds (trace w') ++ pending w'
     = adds (trace w) ++ pending w
       ++ deliveries (publishers (mgr w)) (accepts l w).
Proof.
  intros Hdone Hstep. unfold accepts.
  open_step w Hstep; unfold pending, adds, full in *; cbn in *;
    rewrite ?filter_app, ?deliveries_app; cbn;
    rewrite ?app_nil_r, <- ?app_assoc; cbn;
    try (match goal with
         | H : (_ <=? _) = _ |- _ => rewrite H
         end; cbn; rewrite ?app_nil_r);
    try (split; [solve [auto | discriminate | intros; congruence]
                | solve [reflexivity | rewrite ?app_nil_r; reflexivity]]).
  split; [exact Hdone|].
  destruct f; [| |specialize (Hdone eq_refl); discriminate Hdone];
    rewrite flat_map_app; cbn; rewrite ?app_nil_r, <- ?app_assoc; reflexivity.
Qed.

(** X5: nothing is delivered twice, out of order or from nowhere.  In
    every schedule, the [Add] calls made on the publishers, followed by
    those the forwarder still has to make, are the ones for what was held
    and buffered at the start followed by, for each datapoint that a
    [select] put into the buffer, in that order, one [Add] on every
    publisher in registration order. *)
Theorem accepted_datapoints_delivered_in_order (w w' : World)
    (ls : list label)
    (Hdone : fwd w = fwdDone -> closed (addDataChan (mgr w)) = true)
    (Hrun : run ls w = Some w') :
  adds (trace w') ++ pending w'
  = adds (trace w) ++ pending w
    ++ deliveries (publishers (mgr w)) (accepted ls w).
Proof.
  revert w Hdone Hrun. induction ls as [|l ls IH]; intros w Hdone Hrun.
  - injection Hrun as <-. cbn. rewrite app_nil_r. reflexivity.
  - cbn [run] in Hrun. cbn [accepted].
    destruct (step l w) as [w1|] eqn:Hstep; [|discriminate Hrun].
    destruct (accept_step l w w1 Hdone Hstep) as (Hdone1 & Ht1).
    destruct (step_frame l w w1 Hstep) as (Hp & _).
    rewrite (IH w1 Hdone1 Hrun), app_assoc, Ht1, Hp, deliveries_app,
      <- !app_assoc.
    reflexivity.
Qed.

Lemma accepted_datapoints_delivered_in_order_witness :
  exists w : World,
    run report_schedule (boot example_manager) = Some w
    /\ adds (trace w) ++ pending w
       = deliveries example_publishers
           [metric "PutObject" "success_count" 1;
            metric "PutObject" "bytes_written" 100;
            metric "PutObject" "object_created_count" 1].
Proof.
  destruct (run report_schedule (boot example_manager)) as [w|] eqn:Hrun;
    [|vm_compute in Hrun; discriminate Hrun].
  exists w. split; [reflexivity|].
  rewrite (accepted_datapoints_delivered_in_order (boot example_manager) w
             report_schedule ltac:(discriminate) Hrun).
  reflexivity.
Defined.

(** ** The order of the calls on the publishers *)

Lemma trace_snoc_Add (t : list call) (p : publisher) (d : datapoint) :
  t = adds t ++ shutdowns [] ->
  t ++ [record p d] = adds (t ++ [record p d]) ++ shutdowns [].
Proof.
  cbn. rewrite !app_nil_r. intros Ht. rewrite adds_app. cbn.
  rewrite <- Ht. reflexivity.
Qed.

Lemma trace_snoc_Close (t : list call) (done : list publisher)
    (p : publisher) :
  t = adds t ++ shutdowns done ->
  t ++ [publisher_Close p]
  = adds (t ++ [publisher_Close p]) ++ shutdowns (done ++ [p]).
Proof.
  intros Ht. rewrite adds_app. cbn. rewrite app_nil_r.
  unfold shutdowns. rewrite map_app. cbn. rewrite app_assoc.
  fold (shutdowns done). rewrite <- Ht. reflexivity.
Qed.

Ltac keeps_order Ht :=
  rewrite ?app_nil_r;
  first
    [ exists (@nil publisher); split; [exact Ht | solve [auto]]
    | eexists; split; [exact Ht | solve [auto]]
    | exists (@nil publisher); split;
      [ apply trace_snoc_Add; exact Ht | reflexivity ]
    | eexists; split;
      [ apply trace_snoc_Close; exact Ht
      | split; [rewrite <- app_assoc; reflexivity | reflexivity] ] ].

Lemma orderly_step (pubs : list publisher) (l : label) (w w' : World) :
  orderly pubs w -> step l w = Some w' -> orderly pubs w'.
Proof.
  intros [Hp Hwg Hd Hc (done & Ht & Hcl)] Hstep.
  open_step w Hstep.
  all: constructor; cbn in *; try assumption; try reflexivity;
    try discriminate; try congruence; try tauto.
  all: repeat match goal with
       | H : _ /\ _ |- _ => destruct H
       | H : fwdRange = fwdDone |- _ => discriminate H
       | H : fwdAdd _ _ = fwdDone |- _ => discriminate H
       end; subst.
  all: try solve [keeps_order Ht].
  all: try solve [split; [discriminate | reflexivity]
                 | split; intros; [discriminate | reflexivity]
                 | tauto
                 | intuition congruence].
Qed.

Lemma orderly_run (pubs : list publisher) (ls : list label) :
  forall w w' : World,
  orderly pubs w -> run ls w = Some w' -> orderly pubs w'.
Proof.
  induction ls as [|l ls IH]; intros w w' Hw Hrun.
  - injection Hrun as <-. exact Hw.
  - cbn in Hrun. destruct (step l w) as [w1|] eqn:Hstep; [|discriminate Hrun].
    apply (IH w1 w' (orderly_step pubs l w w1 Hw Hstep) Hrun).
Qed.

Lemma orderly_boot (m : Manager) :
  wg m = 1 -> closed (addDataChan m) = false ->
  orderly (publishers m) (boot m).
Proof.
  intros Hwg Hopen. constructor; cbn; try assumption; try reflexivity.
  - discriminate.
  - rewrite Hopen. split; [discriminate | congruence].
  - exists []. split; reflexivity.
Qed.

Lemma forallb_adds (t : list call) : forallb is_Add (adds t) = true.
Proof.
  induction t as [|c t IH]; [reflexivity|].
  cbn. destruct (is_Add c) eqn:Hc; [cbn; rewrite Hc; exact IH | exact IH].
Qed.

(** X6: in a process started by [NewManager], whatever the goroutines do
    (callers of [Send] racing with [Close] included), no publisher gets an
    [Add] after any publisher got its [Close]: the calls made are [Add]
    calls followed by the [Close] calls of a first part of the publisher
    list, in registration order, and a [Close] has been made only with the
    forwarder exited. *)
Theorem no_Add_after_publisher_Close (m : Manager) (ls : list label)
    (w : World) (Hwg : wg m = 1)
    (Hopen : closed (addDataChan m) = false)
    (Hrun : run ls (boot m) = Some w) :
  exists (delivered : list call) (done rest : list publisher),
    trace w = delivered ++ shutdowns done
    /\ forallb is_Add delivered = true
    /\ publishers m = done ++ rest
    /\ (done <> [] -> fwd w = fwdDone).
Proof.
  destruct (orderly_run _ ls _ w (orderly_boot m Hwg Hopen) Hrun)
    as [_ _ _ _ (done & Ht & Hcl)].
  exists (adds (trace w)), done.
  destruct (cls w) as [| |rest|].
  - exists (publishers m). subst done.
    split; [exact Ht|]. split; [apply forallb_adds|]. split; [reflexivity|].
    congruence.
  - exists (publishers m). subst done.
    split; [exact Ht|]. split; [apply forallb_adds|]. split; [reflexivity|].
    congruence.
  - exists rest. destruct Hcl as [Hp Hf].
    split; [exact Ht|]. split; [apply forallb_adds|]. auto.
  - exists []. destruct Hcl as [Hp Hf].
    split; [exact Ht|]. split; [apply forallb_adds|].
    rewrite app_nil_r. auto.
Qed.

Lemma no_Add_after_publisher_Close_witness :
  exists w : World,
    run close_schedule (boot two_buffered_manager) = Some w
    /\ exists (delivered : list call) (done rest : list publisher),
         trace w = delivered ++ shutdowns done
         /\ forallb is_Add delivered = true
         /\ publishers two_buffered_manager = done ++ rest.
Proof.
  destruct (run close_schedule (boot two_buffered_manager)) as [w|] eqn:Hrun;
    [|vm_compute in Hrun; discriminate Hrun].
  exists w. split; [reflexivity|].
  destruct (no_Add_after_publisher_Close two_buffered_manager close_schedule
              w eq_refl eq_refl Hrun)
    as (delivered & done & rest & Ht & Ha & Hp & _).
  exists delivered, done, rest. auto.
Defined.

(** X7: in a process started by [NewManager], whatever the goroutines do,
    the WaitGroup counter is 1 while the forwarder runs and 0 once it has
    exited (it never goes below 0); the forwarder exits only after [Close]
    has been called and has closed the channel; and [Close] gets past
    [m.wg.Wait()] only after the forwarder has exited. *)
Theorem forwarder_and_Close_wait_for_each_other (m : Manager)
    (ls : list label) (w : World) (Hwg : wg m = 1)
    (Hopen : closed (addDataChan m) = false)
    (Hrun : run ls (boot m) = Some w) :
  (fwd w <> fwdDone -> wg (mgr w) = 1)
  /\ (fwd w = fwdDone ->
      wg (mgr w) = 0 /\ closed (addDataChan (mgr w)) = true
      /\ cls w <> closeEntry)
  /\ (cls w = closeEntry -> closed (addDataChan (mgr w)) = false)
  /\ (forall rest, cls w = closeLoop rest -> fwd w = fwdDone)
  /\ (cls w = closeReturned -> fwd w = fwdDone).
Proof.
  destruct (orderly_run _ ls _ w (orderly_boot m Hwg Hopen) Hrun)
    as [_ Hw Hd Hc (done & _ & Hcl)].
  split; [|split; [|split; [|split]]].
  - intros Hf. destruct (fwd w); congruence.
  - intros Hf. rewrite Hf in Hw. split; [exact Hw|].
    split; [apply Hd, Hf | apply Hc, Hd, Hf].
  - intros He. destruct (closed (addDataChan (mgr w))) eqn:Hcd;
      [|reflexivity].
    exfalso. apply (proj1 Hc); [reflexivity | exact He].
  - intros rest He. rewrite He in Hcl. tauto.
  - intros He. rewrite He in Hcl. tauto.
Qed.

Lemma forwarder_and_Close_wait_for_each_other_witness :
  exists w : World,
    run close_schedule (boot two_buffered_manager) = Some w
    /\ cls w = closeReturned /\ fwd w = fwdDone.
Proof.
  destruct (run close_schedule (boot two_buffered_manager)) as [w|] eqn:Hrun;
    [|vm_compute in Hrun; discriminate Hrun].
  exists w. split; [reflexivity|].
  assert (Hret : cls w = closeReturned)
    by (vm_compute in Hrun; injection Hrun as <-; reflexivity).
  split; [exact Hret|].
  destruct (forwarder_and_Close_wait_for_each_other two_buffered_manager
              close_schedule w eq_refl eq_refl Hrun) as (_ & _ & _ & _ & Hdone).
  exact (Hdone Hret).
Defined.

(** X8: once the call of [Close] has passed its first statement, at any
    later time and whatever has happened in between, another call of
    [Close] panics on closing the closed channel, before it reaches the
    publishers. *)
Theorem second_Close_panics (m : Manager) (ls : list label) (w : World)
    (Hwg : wg m = 1) (Hopen : closed (addDataChan m) = false)
    (Hrun : run ls (boot m) = Some w) (Hcalled : cls w <> closeEntry) :
  Close (Some (mgr w)) closeEntry = Some (Panicked closeOfClosedChannel).
Proof.
  destruct (orderly_run _ ls _ w (orderly_boot m Hwg Hopen) Hrun)
    as [_ _ _ Hc _].
  unfold Close, close_chan. cbn [deref bind].
  rewrite (proj2 Hc Hcalled). reflexivity.
Qed.

Lemma second_Close_panics_witness :
  exists w : World,
    run close_schedule (boot two_buffered_manager) = Some w
    /\ Close (Some (mgr w)) closeEntry
       = Some (Panicked closeOfClosedChannel).
Proof.
  destruct (run close_schedule (boot two_buffered_manager)) as [w|] eqn:Hrun;
    [|vm_compute in Hrun; discriminate Hrun].
  exists w. split; [reflexivity|].
  apply (second_Close_panics two_buffered_manager close_schedule w eq_refl
           eq_refl Hrun).
  vm_compute in Hrun. injection Hrun as <-. discriminate.
Defined.

(** ** Reports within the capacity *)

Lemma Send_each_room (rs : list request) :
  forall this : Manager,
  running this -> room this (List.length (reported rs)) ->
  Send_each this rs = Returned (enqueued this (reported rs)).
Proof.
  induction rs as [|r rs IH]; intros this Hrun Hroom.
  - cbn. rewrite enqueued_nil. reflexivity.
  - change (reported (r :: rs))
      with (Mapper (req_err r) (req_action r) (req_count r) ++ reported rs)
      in *.
    cbn [Send_each]. rewrite length_app in Hroom.
    rewrite Send_Mapper. cbn [deref bind].
    rewrite add_all_room;
      [|exact Hrun | unfold room in *; lia].
    cbn [bind]. rewrite IH.
    + rewrite enqueued_app. reflexivity.
    + destruct Hrun; split; assumption.
    + unfold room, enqueued in *. cbn. rewrite length_app. lia.
Qed.

(** X9: when the datapoints of a sequence of [Send] calls fit into the
    free part of the buffer of a running manager, every one of them is
    enqueued, and the forwarder then makes, for each buffered datapoint in
    the order of the calls, one [Add] on every publisher in registration
    order, and waits at the empty buffer. *)
Theorem reports_within_capacity_all_delivered (this : Manager)
    (rs : list request) (Hrun : running this)
    (Hroom : room this (List.length (reported rs))) :
  Send_each this rs = Returned (enqueued this (reported rs))
  /\ exists (n : nat) (w : World),
       run (repeat Lforward n) (boot (enqueued this (reported rs))) = Some w
       /\ trace w
          = deliveries (publishers this)
              (buf (addDataChan this) ++ reported rs)
       /\ buf (addDataChan (mgr w)) = []
       /\ step Lforward w = None.
Proof.
  split; [apply Send_each_room; assumption|].
  destruct this as [g c cf ps [b k cd]]. destruct Hrun as [_ Hopen].
  cbn in Hopen. subst cd.
  exists (List.length (b ++ reported rs) * (List.length ps + 2))%nat.
  eexists. split; [apply forward_buffer|]. cbn. auto.
Qed.

Lemma reports_within_capacity_all_delivered_witness :
  running example_manager
  /\ Send_each example_manager two_requests
     = Returned (enqueued example_manager
         [metric "PutObject" "success_count" 1;
          metric "PutObject" "bytes_written" 100;
          metric "PutObject" "object_created_count" 1;
          metric "GetObject" "failed_count" 1;
          metric "GetObject" "bytes_read" 42]).
Proof.
  assert (Hrun : running example_manager) by (split; reflexivity).
  split; [exact Hrun|].
  destruct (reports_within_capacity_all_delivered example_manager
              two_requests Hrun ltac:(vm_compute; discriminate)) as (Hall & _).
  exact Hall.
Defined.

(** ** The publishers that [NewManager] builds *)

Lemma NewManager_cases (Hostname : string + error)
    (newStatsd newDogStatsd : string -> string -> publisher + error)
    (c : Context) (conf : Config) :
  (~ endpoints conf
   /\ NewManager Hostname newStatsd newDogStatsd c conf = (None, None))
  \/ (endpoints conf /\ ServiceName conf = ""
      /\ exists e, Hostname = inr e
           /\ NewManager Hostname newStatsd newDogStatsd c conf
              = (None, Some (wrapError "failed to get hostname" e)))
  \/ (endpoints conf
      /\ exists name, named Hostname conf name
           /\ NewManager Hostname newStatsd newDogStatsd c conf
              = match plugins newStatsd newDogStatsd name conf with
                | inr err => (None, Some err)
                | inl pubs =>
                    (Some {| wg := 1; ctx := c;
                             config := {| ServiceName := name;
                                          StatsdServers := StatsdServers conf;
                                          DogStatsdServers := DogStatsdServers conf |};
                             publishers := pubs;
                             addDataChan := make_chan dataItemCount |}, None)
                end).
Proof.
  assert (Hend : endpoints conf \/ ~ endpoints conf).
  { unfold endpoints.
    destruct (String.eqb_spec (StatsdServers conf) "");
      destruct (String.eqb_spec (DogStatsdServers conf) ""); tauto. }
  destruct Hend as [Hend|Hno].
  - right. destruct (named_or_unresolved Hostname conf)
      as [[name Hn] | [Hu [e He]]].
    + right. split; [assumption|]. exists name. split; [assumption|].
      apply NewManager_named; assumption.
    + left. split; [assumption|]. split; [assumption|]. exists e.
      split; [assumption|]. apply NewManager_hostname_error; assumption.
  - left. split; [assumption|]. apply NewManager_unconfigured.
    + destruct (String.eqb_spec (StatsdServers conf) ""); [assumption|].
      exfalso. apply Hno. left. assumption.
    + destruct (String.eqb_spec (DogStatsdServers conf) ""); [assumption|].
      exfalso. apply Hno. right. assumption.
Qed.

Lemma NewManager_Some (Hostname : string + error)
    (newStatsd newDogStatsd : string -> string -> publisher + error)
    (c : Context) (conf : Config) (this : Manager) :
  fst (NewManager Hostname newStatsd newDogStatsd c conf) = Some this ->
  exists (name : string) (statsd dog : list publisher),
    named Hostname conf name
    /\ Forall2 (fun s p => newStatsd s name = inl p)
         (entries (StatsdServers conf)) statsd
    /\ Forall2 (fun s p => newDogStatsd s name = inl p)
         (entries (DogStatsdServers conf)) dog
    /\ this = {| wg := 1; ctx := c;
                 config := {| ServiceName := name;
                              StatsdServers := StatsdServers conf;
                              DogStatsdServers := DogStatsdServers conf |};
                 publishers := statsd ++ dog;
                 addDataChan := make_chan dataItemCount |}.
Proof.
  intros Hnew.
  destruct (NewManager_cases Hostname newStatsd newDogStatsd c conf)
    as [[_ Heq] | [(_ & _ & e & _ & Heq) | (_ & name & Hn & Heq)]];
    rewrite Heq in Hnew; try discriminate Hnew.
  rewrite plugins_entries in Hnew.
  destruct (setup newStatsd name (entries (StatsdServers conf)) [])
    as [ps|e] eqn:Hs; [|discriminate Hnew].
  destruct (setup newDogStatsd name (entries (DogStatsdServers conf)) ps)
    as [pd|e] eqn:Hd; [|discriminate Hnew].
  cbn in Hnew. injection Hnew as <-.
  apply setup_inl in Hs. destruct Hs as (statsd & Hs & ->).
  apply setup_inl in Hd. destruct Hd as (dog & Hd & ->).
  exists name, statsd, dog. cbn.
  repeat split; solve [assumption | reflexivity].
Qed.

(** X10: the manager that [NewManager] returns has one publisher for each
    entry of the statsd server list, in the order of the list, followed by
    one for each entry of the dogstatsd server list, each built by its
    constructor from the entry and the service name; it keeps the context
    and the configuration with that service name, counts one goroutine in
    its WaitGroup, and its channel is open and empty with room for
    [dataItemCount] datapoints. *)
Theorem NewManager_publishers_in_order (Hostname : string + error)
    (newStatsd newDogStatsd : string -> string -> publisher + error)
    (c : Context) (conf : Config) (this : Manager)
    (Hnew : fst (NewManager Hostname newStatsd newDogStatsd c conf)
            = Some this) :
  exists (name : string) (statsd dog : list publisher),
    named Hostname conf name
    /\ Forall2 (fun s p => newStatsd s name = inl p)
         (entries (StatsdServers conf)) statsd
    /\ Forall2 (fun s p => newDogStatsd s name = inl p)
         (entries (DogStatsdServers conf)) dog
    /\ publishers this = statsd ++ dog
    /\ config this = {| ServiceName := name;
                        StatsdServers := StatsdServers conf;
                        DogStatsdServers := DogStatsdServers conf |}
    /\ ctx this = c /\ wg this = 1
    /\ buf (addDataChan this) = []
    /\ cap (addDataChan this) = dataItemCount
    /\ closed (addDataChan this) = false.
Proof.
  destruct (NewManager_Some _ _ _ _ _ _ Hnew)
    as (name & statsd & dog & Hn & Hs & Hd & ->).
  exists name, statsd, dog. cbn.
  repeat split; solve [assumption | reflexivity].
Qed.

Lemma NewManager_publishers_in_order_witness :
  fst (NewManager (inl "host") statsd_plugin dogstatsd_plugin Background
         both_unnamed) = Some both_unnamed_manager
  /\ exists (name : string) (statsd dog : list publisher),
       Forall2 (fun s p => statsd_plugin s name = inl p)
         (entries (StatsdServers both_unnamed)) statsd
       /\ Forall2 (fun s p => dogstatsd_plugin s name = inl p)
            (entries (DogStatsdServers both_unnamed)) dog
       /\ publishers both_unnamed_manager = statsd ++ dog.
Proof.
  assert (Hnew : fst (NewManager (inl "host") statsd_plugin dogstatsd_plugin
                        Background both_unnamed) = Some both_unnamed_manager)
    by reflexivity.
  split; [exact Hnew|].
  destruct (NewManager_publishers_in_order _ _ _ _ _ _ Hnew)
    as (name & statsd & dog & _ & Hs & Hd & Hp & _).
  exists name, statsd, dog. auto.
Defined.

(** X11: with endpoints configured and the service name known,
    [NewManager] fails with the error of the first entry whose constructor
    fails, the statsd entries coming before the dogstatsd entries, and
    returns no manager. *)
Theorem NewManager_fails_on_first_bad_endpoint (Hostname : string + error)
    (newStatsd newDogStatsd : string -> string -> publisher + error)
    (c : Context) (conf : Config) (name : string) (e : error)
    (pre post : list string) (s : string)
    (Hend : endpoints conf) (Hname : named Hostname conf name) :
  (entries (StatsdServers conf) = pre ++ s :: post ->
   Forall (fun x => exists p, newStatsd x name = inl p) pre ->
   newStatsd s name = inr e ->
   NewManager Hostname newStatsd newDogStatsd c conf = (None, Some e))
  /\ (Forall (fun x => exists p, newStatsd x name = inl p)
        (entries (StatsdServers conf)) ->
      entries (DogStatsdServers conf) = pre ++ s :: post ->
      Forall (fun x => exists p, newDogStatsd x name = inl p) pre ->
      newDogStatsd s name = inr e ->
      NewManager Hostname newStatsd newDogStatsd c conf = (None, Some e)).
Proof.
  rewrite (NewManager_named Hostname newStatsd newDogStatsd c conf name
             Hend Hname), plugins_entries.
  split.
  - intros Heq Hpre Hs.
    assert (H : setup newStatsd name (entries (StatsdServers conf)) [] = inr e)
      by (apply setup_inr; exists pre, s, post; auto).
    rewrite H. reflexivity.
  - intros Hall Heq Hpre Hs.
    destruct (setup newStatsd name (entries (StatsdServers conf)) [])
      as [ps|e'] eqn:Hst.
    + assert (H : setup newDogStatsd name (entries (DogStatsdServers conf)) ps
                  = inr e)
        by (apply setup_inr; exists pre, s, post; auto).
      rewrite H. reflexivity.
    + apply setup_inr in Hst. destruct Hst as (pre' & x & post' & Hx & _ & Hbad).
      rewrite Forall_forall in Hall.
      destruct (Hall x) as [p Hp]; [|congruence].
      rewrite Hx. apply in_or_app. right. left. reflexivity.
Qed.

Lemma NewManager_fails_on_first_bad_endpoint_witness :
  endpoints statsd_only /\ named (inl "host") statsd_only "gw"
  /\ NewManager (inl "host") no_plugin dogstatsd_plugin Background statsd_only
     = (None, Some (errorString "no such plugin")).
Proof.
  assert (Hend : endpoints statsd_only) by (left; discriminate).
  assert (Hname : named (inl "host") statsd_only "gw")
    by (left; split; [discriminate | reflexivity]).
  split; [exact Hend|]. split; [exact Hname|].
  destruct (NewManager_fails_on_first_bad_endpoint (inl "host") no_plugin
              dogstatsd_plugin Background statsd_only "gw"
              (errorString "no such plugin") [] [] "127.0.0.1:8125"
              Hend Hname) as (Hstatsd & _).
  apply Hstatsd; [reflexivity | constructor | reflexivity].
Defined.

(** X12: with the service name set, [NewManager] does not depend on the
    host name: the result is the same whether or not the host name can be
    resolved. *)
Theorem NewManager_named_ignores_hostname (H1 H2 : string + error)
    (newStatsd newDogStatsd : string -> string -> publisher + error)
    (c : Context) (conf : Config) (Hset : ServiceName conf <> "") :
  NewManager H1 newStatsd newDogStatsd c conf
  = NewManager H2 newStatsd newDogStatsd c conf.
Proof.
  destruct (NewManager_cases H1 newStatsd newDogStatsd c conf)
    as [[Hno Heq] | [(_ & Hu & _) | (Hend & name & Hn & Heq)]].
  - rewrite Heq. symmetry.
    destruct (NewManager_cases H2 newStatsd newDogStatsd c conf)
      as [[_ Heq2] | [(Hend & _) | (Hend & _)]]; [exact Heq2 | tauto | tauto].
  - congruence.
  - rewrite Heq. symmetry.
    assert (Hn2 : named H2 conf name).
    { destruct Hn as [[_ ->] | [Hu _]]; [left; auto | congruence]. }
    rewrite (NewManager_named H2 newStatsd newDogStatsd c conf name Hend Hn2).
    reflexivity.
Qed.

Lemma NewManager_named_ignores_hostname_witness :
  ServiceName statsd_only <> ""
  /\ NewManager (inl "host") statsd_plugin dogstatsd_plugin Background
       statsd_only
     = NewManager (inr (errorString "no host name")) statsd_plugin
         dogstatsd_plugin Background statsd_only.
Proof.
  assert (Hset : ServiceName statsd_only <> "") by discriminate.
  split; [exact Hset|].
  apply (NewManager_named_ignores_hostname (inl "host")
           (inr (errorString "no host name")) statsd_plugin dogstatsd_plugin
           Background statsd_only Hset).
Defined.

(** ** The entries of a server list *)

Lemma Split_cons (s : string) (sep : ascii) :
  exists hd tl, Split s sep = hd :: tl.
Proof.
  destruct s as [|c s]; cbn; [eauto|].
  destruct (Ascii.eqb c sep); [eauto|].
  destruct (Split s sep); eauto.
Qed.

Lemma length_Split (s : string) (sep : ascii) :
  List.length (Split s sep) = S (count_sep sep s).
Proof.
  induction s as [|c s IH]; [reflexivity|].
  cbn. destruct (Ascii.eqb c sep); cbn; [rewrite IH; reflexivity|].
  destruct (Split s sep) as [|hd tl]; [discriminate IH | exact IH].
Qed.

Lemma concat_cons (sep x y : string) (l : list string) :
  String.concat sep (x :: y :: l)
  = (x ++ sep ++ String.concat sep (y :: l))%string.
Proof. reflexivity. Qed.

Lemma concat_Split (s : string) (sep : ascii) :
  String.concat (String sep "") (Split s sep) = s.
Proof.
  induction s as [|c s IH]; [reflexivity|].
  cbn [Split]. destruct (Ascii.eqb_spec c sep) as [->|Hne].
  - destruct (Split_cons s sep) as (hd & tl & Heq). rewrite Heq in *.
    rewrite concat_cons, IH. reflexivity.
  - destruct (Split_cons s sep) as (hd & tl & Heq). rewrite Heq in *.
    destruct tl as [|x tl].
    + cbn in IH |- *. rewrite IH. reflexivity.
    + rewrite concat_cons in IH |- *. cbn [String.append] in IH |- *.
      rewrite IH. reflexivity.
Qed.

Lemma Split_no_sep (s : string) (sep : ascii) :
  Forall (fun e => count_sep sep e = 0%nat) (Split s sep).
Proof.
  induction s as [|c s IH]; [repeat constructor|].
  cbn [Split]. destruct (Ascii.eqb c sep) eqn:Hc.
  - constructor; [reflexivity | exact IH].
  - destruct (Split s sep) as [|hd tl]; [repeat constructor; cbn; rewrite Hc; reflexivity|].
    inversion IH as [|? ? Hhd Htl]; subst.
    constructor; [cbn; rewrite Hc; exact Hhd | exact Htl].
Qed.

(** X13: the entries that [NewManager] takes from a server list are never
    none: a list with n commas has n + 1 entries, empty ones included (an
    empty entry is handed to the constructor like any other); no entry
    contains a comma, and the entries joined by commas are the configured
    string. *)
Theorem server_list_entries (servers : string) :
  List.length (Split servers ",") = S (count_sep "," servers)
  /\ Forall (fun e => count_sep "," e = 0%nat) (Split servers ",")
  /\ String.concat "," (Split servers ",") = servers
  /\ (servers <> "" ->
      entries servers = Split servers ","
      /\ List.length (entries servers) = S (count_sep "," servers))
  /\ entries "" = [].
Proof.
  split; [apply length_Split|]. split; [apply Split_no_sep|].
  split; [apply concat_Split|]. split; [|reflexivity].
  intros Hne. unfold entries.
  destruct (String.eqb_spec servers ""); [congruence|].
  split; [reflexivity | apply length_Split].
Qed.

Lemma server_list_entries_witness :
  "a:8125,,b:8125," <> ""
  /\ entries "a:8125,,b:8125," = ["a:8125"; ""; "b:8125"; ""].
Proof.
  assert (Hne : "a:8125,,b:8125," <> "") by discriminate.
  split; [exact Hne|].
  destruct (server_list_entries "a:8125,,b:8125,") as (_ & _ & _ & He & _).
  destruct (He Hne) as [Heq _]. rewrite Heq. reflexivity.
Defined.

(** X14: the manager that [NewManager] returns has as many publishers as
    the two server lists have entries: for each non-empty list the number
    of its commas plus one. *)
Theorem NewManager_one_publisher_per_entry (Hostname : string + error)
    (newStatsd newDogStatsd : string -> string -> publisher + error)
    (c : Context) (conf : Config) (this : Manager)
    (Hnew : fst (NewManager Hostname newStatsd newDogStatsd c conf)
            = Some this) :
  List.length (publishers this)
  = (List.length (entries (StatsdServers conf))
     + List.length (entries (DogStatsdServers conf)))%nat
  /\ (StatsdServers conf <> "" -> DogStatsdServers conf <> "" ->
      List.length (publishers this)
      = (S (count_sep "," (StatsdServers conf))
         + S (count_sep "," (DogStatsdServers conf)))%nat)
  /\ (0 < List.length (publishers this))%nat.
Proof.
  destruct (NewManager_Some _ _ _ _ _ _ Hnew)
    as (name & statsd & dog & _ & Hs & Hd & ->).
  cbn [publishers]. rewrite length_app.
  rewrite <- (Forall2_length Hs), <- (Forall2_length Hd).
  split; [reflexivity|]. split.
  - intros Hse Hde. unfold entries.
    destruct (String.eqb_spec (StatsdServers conf) ""); [congruence|].
    destruct (String.eqb_spec (DogStatsdServers conf) ""); [congruence|].
    rewrite !length_Split. reflexivity.
  - destruct (NewManager_cases Hostname newStatsd newDogStatsd c conf)
      as [[_ Heq] | [(_ & _ & e & _ & Heq) | (Hend & _)]];
      try (rewrite Heq in Hnew; discriminate Hnew).
    unfold entries.
    destruct Hend as [Hne|Hne];
      [destruct (String.eqb_spec (StatsdServers conf) "")
      |destruct (String.eqb_spec (DogStatsdServers conf) "")];
      try congruence; rewrite length_Split; lia.
Qed.

Lemma NewManager_one_publisher_per_entry_witness :
  fst (NewManager (inl "host") statsd_plugin dogstatsd_plugin Background
         both_unnamed) = Some both_unnamed_manager
  /\ List.length (publishers both_unnamed_manager) = 3%nat.
Proof.
  assert (Hnew : fst (NewManager (inl "host") statsd_plugin dogstatsd_plugin
                        Background both_unnamed) = Some both_unnamed_manager)
    by reflexivity.
  split; [exact Hnew|].
  destruct (NewManager_one_publisher_per_entry _ _ _ _ _ _ Hnew)
    as (_ & Hcount & _).
  rewrite Hcount; [reflexivity | discriminate | discriminate].
Defined.

(** ** The helpers of the integration tests *)

Lemma range_compare_spec (a : list Byte.byte) :
  forall pre b : list Byte.byte,
  List.length a = List.length b ->
  range_compare a (pre ++ b) (List.length pre)
  = Some (if list_eq_dec Byte.byte_eq_dec a b then true else false).
Proof.
  induction a as [|d a IH]; intros pre b Hlen.
  - destruct b; [|discriminate Hlen]. cbn.
    destruct (list_eq_dec Byte.byte_eq_dec [] []); [reflexivity | congruence].
  - destruct b as [|x b]; [discriminate Hlen|].
    cbn [range_compare].
    rewrite nth_error_app2, Nat.sub_diag by lia. cbn [nth_error].
    destruct (Byte.eqb d x) eqn:Hdx.
    + apply Byte.byte_dec_bl in Hdx. subst x.
      replace (pre ++ d :: b) with ((pre ++ [d]) ++ b)
        by (rewrite <- app_assoc; reflexivity).
      replace (S (List.length pre)) with (List.length (pre ++ [d]))
        by (rewrite length_app; cbn; lia).
      rewrite IH by (cbn in Hlen; lia).
      destruct (list_eq_dec Byte.byte_eq_dec a b);
        destruct (list_eq_dec Byte.byte_eq_dec (d :: a) (d :: b));
        congruence.
    + apply Byte.eqb_false in Hdx.
      destruct (list_eq_dec Byte.byte_eq_dec (d :: a) (x :: b));
        congruence.
Qed.

(** X15: [isEqual] and [isSame] never index out of range, and they answer
    true exactly when the two slices hold the same bytes. *)
Theorem isEqual_decides_equality (a b : list Byte.byte) :
  (isEqual a b = Some true <-> a = b)
  /\ (isEqual a b = Some false <-> a <> b)
  /\ (isSame a b = Some true <-> a = b)
  /\ (isSame a b = Some false <-> a <> b).
Proof.
  assert (H : isEqual a b
              = Some (if list_eq_dec Byte.byte_eq_dec a b then true else false)).
  { unfold isEqual.
    destruct (Nat.eqb_spec (List.length a) (List.length b)) as [Hlen|Hlen].
    - apply (range_compare_spec a [] b Hlen).
    - cbn. destruct (list_eq_dec Byte.byte_eq_dec a b); congruence. }
  change (isSame a b) with (isEqual a b). rewrite H.
  destruct (list_eq_dec Byte.byte_eq_dec a b);
    repeat split; intros; congruence.
Qed.

Lemma isEqual_decides_equality_witness :
  isEqual three_bytes three_bytes = Some true
  /\ isSame three_bytes (Byte.x01 :: three_bytes) = Some false.
Proof.
  destruct (isEqual_decides_equality three_bytes three_bytes)
    as ((_ & Htrue) & _).
  destruct (isEqual_decides_equality three_bytes (Byte.x01 :: three_bytes))
    as (_ & _ & _ & (_ & Hfalse)).
  split; [apply Htrue; reflexivity | apply Hfalse; discriminate].
Defined.

(** X16: [containsPart] answers true exactly when some part of the list
    has the number asked for. *)
Theorem containsPart_finds_the_number (part : Z) (list : list Part) :
  containsPart part list = true
  <-> exists it, In it list /\ PartNumber it = part.
Proof.
  induction list as [|it list IH]; cbn.
  - split; [discriminate | intros (it & [] & _)].
  - destruct (Z.eqb_spec (PartNumber it) part) as [Heq|Hne].
    + split; [intros _; exists it; auto | reflexivity].
    + rewrite IH. split.
      * intros (x & Hin & Hx). exists x. auto.
      * intros (x & [->|Hin] & Hx); [congruence | exists x; auto].
Qed.

Lemma containsPart_finds_the_number_witness :
  containsPart 2 three_parts = true.
Proof.
  apply (proj2 (containsPart_finds_the_number 2 three_parts)).
  exists {| PartNumber := 2 |}. split; [right; left; reflexivity | reflexivity].
Defined.
